(** * coverage.py: mock RESTler coverage reports

    A shallow embedding of [coverage.py].  The script reads an OpenAPI
    document, shuffles its path keys with a fixed seed, cuts the shuffled
    list at a target percentage and writes a JSON and an HTML report.

    Python values are modelled as the interpreter has them:
    - an [int] is a [Z];
    - a [float] is a binary64 number, [spec_float] with [prec = 53] and
      [emax = 1024], rounded to nearest-even by the operations of
      [SpecFloat];
    - a [str] is the list of its code points;
    - a raised exception is the left summand of a result;
    - the interpreter's surroundings (the module-level generator of
      [random], the clock, the working directory, the files, standard
      output) are a record threaded through every effectful function. *)

From Stdlib Require Import ZArith Lia List String Ascii Floats.SpecFloat.
From stdpp Require Import base option list gmap sets.

Local Open Scope Z_scope.

(** ** Exceptions and results *)

Inductive exn : Type :=
  | ZeroDivisionError
  | OverflowError
  | ValueError
  | IndexError
  | AttributeError
  | FileNotFoundError
  | FileExistsError
  | NotADirectoryError
  | IsADirectoryError
  | UnicodeDecodeError
  | UnicodeEncodeError
  (** any other exception, by the name of its class *)
  | OtherException (name : list Z).

Definition result (A : Type) : Type := exn + A.

Definition rbind {A B : Type} (r : result A) (k : A -> result B) : result B :=
  match r with
  | inl e => inl e
  | inr a => k a
  end.

(** ** Strings *)

(** A Python [str]: the sequence of its code points. *)
Definition str : Type := list Z.

(** An ASCII literal of the source. *)
Definition lit (s : string) : str :=
  (fun a => Z.of_N (N_of_ascii a)) <$> list_ascii_of_string s.

(** ** Floats *)

Module PyFloat.

Definition prec : Z := 53.
Definition emax : Z := 1024.

(** [float(n)] as the interpreter converts an [int] operand
    ([PyLong_AsDouble]): nearest-even, [OverflowError] beyond the
    range of a double. *)
Definition of_int (n : Z) : result spec_float :=
  match binary_normalize prec emax n 0 false with
  | S754_infinity _ => inl OverflowError
  | f => inr f
  end.

(** [a / b] on two [int]s ([long_true_divide]): the quotient of the
    exact integers, rounded once. *)
Definition truediv_int (a b : Z) : result spec_float :=
  if b =? 0 then inl ZeroDivisionError
  else
    let s := xorb (a <? 0) (b <? 0) in
    if a =? 0 then inr (S754_zero s)
    else
      let '(mz, ez, lz) :=
        SFdiv_core_binary prec emax (Z.abs a) 0 (Z.abs b) 0 in
      match binary_round_aux prec emax s mz ez lz with
      | S754_infinity _ => inl OverflowError
      | f => inr f
      end.

(** [x * y] on two [float]s; an overflow is an infinity, not an
    exception. *)
Definition mul (x y : spec_float) : spec_float := SFmul prec emax x y.

(** [x * n] with an [int] right operand: the operand is converted
    first. *)
Definition mul_int (x : spec_float) (n : Z) : result spec_float :=
  rbind (of_int n) (fun y => inr (mul x y)).

(** [int(x)]: truncation towards zero. *)
Definition to_int (x : spec_float) : result Z :=
  match x with
  | S754_zero _ => inr 0
  | S754_infinity _ => inl OverflowError
  | S754_nan => inl ValueError
  | S754_finite s m e => inr (cond_Zopp s (Z.shiftl (Z.pos m) e))
  end.

(** A float that is a zero or a finite number of sign [s], of magnitude
    below [2 ** d] and of exponent at most [b]. *)
Definition bounded_float (s : bool) (d b : Z) (x : spec_float) : Prop :=
  match x with
  | S754_zero s' => s' = s
  | S754_finite s' m e => s' = s /\ Zdigits2 (Z.pos m) + e <= d /\ e <= b
  | _ => False
  end.

End PyFloat.

(** ** Lists *)

Section PyList.
Context {A : Type}.

(** [len(x)] *)
Definition len (x : list A) : Z := Z.of_nat (length x).

(** The position a slice bound [k] denotes in a list of length [n]
    ([PySlice_AdjustIndices], step 1): negative bounds count from the
    end, and every bound is clipped to [0 .. n]. *)
Definition slice_bound (k : Z) (n : nat) : nat :=
  if k <? 0 then Z.to_nat (Z.max 0 (k + Z.of_nat n))
  else Z.to_nat (Z.min k (Z.of_nat n)).

(** [x[:k]] *)
Definition slice_to (x : list A) (k : Z) : list A :=
  take (slice_bound k (length x)) x.

(** [x[k:]] *)
Definition slice_from (x : list A) (k : Z) : list A :=
  drop (slice_bound k (length x)) x.

(** The position an index [i] denotes, or [IndexError]. *)
Definition index (x : list A) (i : Z) : result nat :=
  let i' := if i <? 0 then i + len x else i in
  if (0 <=? i') && (i' <? len x) then inr (Z.to_nat i') else inl IndexError.

(** [x[i]] *)
Definition getitem (x : list A) (i : Z) : result A :=
  rbind (index x i) (fun n =>
    match x !! n with
    | Some a => inr a
    | None => inl IndexError
    end).

(** [x[i] = a] *)
Definition setitem (x : list A) (i : Z) (a : A) : result (list A) :=
  rbind (index x i) (fun n => inr (<[n:=a]> x)).

(** [x[i], x[j] = x[j], x[i]]: the right-hand side is evaluated from
    left to right, then the targets are assigned from left to right. *)
Definition swap (x : list A) (i j : Z) : result (list A) :=
  rbind (getitem x j) (fun xj =>
  rbind (getitem x i) (fun xi =>
  rbind (setitem x i xj) (fun x' =>
  setitem x' j xi))).

End PyList.

(** ** The [random] module

    [random] is not part of the repository.  The development takes its
    generator as an interface with the contract the library documents:
    seeding with an [int] fixes the whole state, and [_randbelow(n)]
    returns "a random int in the range [0,n)" for [n > 0]. *)

Class Random : Type := {
  rng_state : Type;
  (** the state after [random.seed(a)] *)
  seed : Z -> rng_state;
  (** [_randbelow(n)]: the draw and the state after it *)
  randbelow : Z -> rng_state -> Z * rng_state;
  randbelow_range :
    forall (n : Z) (s : rng_state), 0 < n -> 0 <= fst (randbelow n s) < n
}.

Section Shuffle.
Context `{Random} {A : Type}.

(** The loop of [Random.shuffle], entered at index [i]:
<<
    for i in reversed(range(1, len(x))):
        j = randbelow(i + 1)
        x[i], x[j] = x[j], x[i]
>> *)
Fixpoint shuffle_loop (i : nat) (x : list A) (s : rng_state)
  : result (list A) * rng_state :=
  match i with
  | O => (inr x, s)
  | S i' =>
      let '(j, s') := randbelow (Z.of_nat i + 1) s in
      match swap x (Z.of_nat i) j with
      | inl e => (inl e, s')
      | inr x' => shuffle_loop i' x' s'
      end
  end.

(** [random.shuffle(x)] *)
Definition shuffle (x : list A) (s : rng_state) : result (list A) * rng_state :=
  shuffle_loop (length x - 1)%nat x s.

End Shuffle.


(** A generator that meets the contract, for running the model on
    concrete inputs: the linear congruential sequence of the C standard's
    sample [rand], each draw reduced modulo [n]. *)
Definition lcg_next (s : Z) : Z := (1103515245 * s + 12345) mod 4294967296.

Definition lcg_random : Random := {|
  rng_state := Z;
  seed := fun a => Z.abs a;
  randbelow := fun n s => (lcg_next s / 65536 mod n, lcg_next s);
  randbelow_range := fun n s Hn => Z.mod_pos_bound (lcg_next s / 65536) n Hn
|}.

(** ** YAML documents

    [yaml] is not part of the repository either.  A loaded document is a
    tree of Python values; a mapping is a [dict], kept as its items in
    insertion order (the order of declaration in the document), with
    [str] keys as the path templates of an OpenAPI document are. *)

#[warnings="-register-all"]
Inductive yaml : Type :=
  | YNone
  | YBool (b : bool)
  | YInt (n : Z)
  | YFloat (x : spec_float)
  | YStr (s : str)
  | YList (items : list yaml)
  | YDict (items : list (str * yaml)).

(** How [yaml.safe_load(file)] ends on a file of the given content: with
    a document; with a [YAMLError], of which the message is kept; or with
    another exception, which reading and loading let through (a
    [UnicodeDecodeError] for bytes that are no text, a [ValueError] from
    a constructor, as for [!!int foo]). *)
Inductive loaded : Type :=
  | Document (doc : yaml)
  | YAMLError (message : str)
  | Raised (e : exn).

Class Yaml : Type := {
  safe_load : str -> loaded
}.

(** The value of [key] among the items of a [dict]. *)
Fixpoint dict_lookup (items : list (str * yaml)) (key : str) : option yaml :=
  match items with
  | [] => None
  | (k, v) :: rest => if decide (k = key) then Some v else dict_lookup rest key
  end.

(** [d.get(key, default)]: only a [dict] has the method. *)
Definition get (d : yaml) (key : str) (default : yaml) : result yaml :=
  match d with
  | YDict items => inr (from_option id default (dict_lookup items key))
  | _ => inl AttributeError
  end.

(** [d.keys()], as the sequence a [for] loop walks. *)
Definition keys (d : yaml) : result (list str) :=
  match d with
  | YDict items => inr (fst <$> items)
  | _ => inl AttributeError
  end.

(** ** Decimal numerals *)

(** The decimal digits of a non-negative [n], most significant first;
    [fuel] bounds their number. *)
Fixpoint digits_of (fuel : nat) (n : Z) : str :=
  match fuel with
  | O => []
  | S fuel' =>
      if n <? 10 then [48 + n]
      else digits_of fuel' (n / 10) ++ [48 + n mod 10]
  end.

(** [str(n)] for an [int], which is also [int.__repr__]: the digits,
    after a minus sign for a negative [n].  A number has no more decimal
    digits than binary ones. *)
Definition str_of_int (n : Z) : str :=
  if n <? 0 then 45 :: digits_of (S (Z.to_nat (Z.log2 (- n)))) (- n)
  else digits_of (S (Z.to_nat (Z.log2 n))) n.

(** ** Paths *)

(** [os.sep] *)
Definition sep : Z := 47.

(** [os.path.join(a, b)] of [posixpath]: an absolute [b] replaces [a]. *)
Definition path_join (a b : str) : str :=
  if bool_decide (head b = Some sep) then b
  else if bool_decide (a = []) || bool_decide (last a = Some sep) then a ++ b
  else a ++ [sep] ++ b.

(** [s.rstrip('/')] *)
Fixpoint rstrip_sep (s : str) : str :=
  match s with
  | [] => []
  | c :: s' =>
      match rstrip_sep s' with
      | [] => if c =? sep then [] else [c]
      | r => c :: r
      end
  end.

(** The part of a path up to its last separator, the separator included:
    [p[:p.rfind('/') + 1]], the directory a file of that path is made
    in. *)
Fixpoint dir_part (path : str) : str :=
  match path with
  | [] => []
  | c :: rest =>
      match dir_part rest with
      | [] => if c =? sep then [c] else []
      | d => c :: d
      end
  end.

(** The prefixes of a path that a separator follows: the names the path
    gives to the directories above its last component. *)
Definition ancestors (path : str) : list str :=
  omap (fun i => if bool_decide (path !! i = Some sep) then Some (take i path) else None)
       (seq 1 (length path)).

(** ** Text that can be written

    A text file is written in the encoding of the locale, taken to be
    UTF-8: every code point can be written but the surrogates. *)

Definition encodable_char (c : Z) : bool :=
  (0 <=? c) && (c <? 1114112) && negb ((55296 <=? c) && (c <=? 57343)).

Definition encodable (s : str) : bool := forallb encodable_char s.

(** ** Long integers

    The interpreter refuses to convert between an [int] and its decimal
    text beyond a number of digits, 4300 unless it is set otherwise
    ([sys.get_int_max_str_digits()]), with [ValueError]. *)

Definition int_limit : Z := 10 ^ 4300.

Definition int_too_long (n : Z) : bool := int_limit <=? Z.abs n.

(** ** The coverage data *)

(** The [dict] that [calculate_coverage] returns and the emitters read. *)
Record CoverageData : Type := {
  coverage_percentage : Z;
  total_endpoints : Z;
  covered_endpoints : list str;
  uncovered_endpoints : list str;
  timestamp : str
}.

(** [covered_count = int((coverage_percentage / 100) * total_endpoints)] *)
Definition covered_count (coverage_percentage total_endpoints : Z) : result Z :=
  rbind (PyFloat.truediv_int coverage_percentage 100) (fun ratio =>
  rbind (PyFloat.mul_int ratio total_endpoints) PyFloat.to_int).

(** ** The JSON encoder

    [json.dump(obj, fp, indent=4)] runs the pure-Python encoder of the
    [json] package ([_make_iterencode]) with [ensure_ascii] on, the item
    separator [","] and the key separator [": "].  The values it is given
    here are built from [dict], [list], [str] and [int]. *)

#[warnings="-register-all"]
Inductive json : Type :=
  | JNone
  | JBool (b : bool)
  | JInt (n : Z)
  | JStr (s : str)
  | JList (items : list json)
  | JDict (items : list (str * json)).

(** The double quote. *)
Definition dq : str := [34].

(** One lower-case hexadecimal digit. *)
Definition hex_digit (d : Z) : Z := if d <? 10 then 48 + d else 87 + d.

(** ['\\u{0:04x}'.format(n)] for [n < 0x10000]. *)
Definition u_escape (n : Z) : str :=
  [92; 117; hex_digit (Z.shiftr n 12 mod 16); hex_digit (Z.shiftr n 8 mod 16);
   hex_digit (Z.shiftr n 4 mod 16); hex_digit (n mod 16)].

(** [replace] of [py_encode_basestring_ascii], applied to a character the
    pattern [ESCAPE_ASCII] matches: the entry of [ESCAPE_DCT], or the
    numeric escape, a surrogate pair above the basic plane. *)
Definition replace (c : Z) : str :=
  if c =? 92 then [92; 92]
  else if c =? 34 then [92; 34]
  else if c =? 8 then [92; 98]
  else if c =? 12 then [92; 102]
  else if c =? 10 then [92; 110]
  else if c =? 13 then [92; 114]
  else if c =? 9 then [92; 116]
  else if c <? 65536 then u_escape c
  else
    let n := c - 65536 in
    let s1 := Z.lor 55296 (Z.land (Z.shiftr n 10) 1023) in
    let s2 := Z.lor 56320 (Z.land n 1023) in
    u_escape s1 ++ u_escape s2.

(** [ESCAPE_ASCII] matches a backslash, a double quote and every
    character outside [' ' .. '~']. *)
Definition escape_ascii (c : Z) : bool :=
  (c =? 92) || (c =? 34) || negb ((32 <=? c) && (c <=? 126)).

(** What [ESCAPE_ASCII.sub(replace, s)] leaves of one character. *)
Definition escape_char (c : Z) : str :=
  if escape_ascii c then replace c else [c].

(** A character that a text written with [ensure_ascii] is made of: the
    newline, or a character from the space to the tilde. *)
Definition plain_ascii (c : Z) : Prop := c = 10 \/ 32 <= c <= 126.

(** [py_encode_basestring_ascii(s)] *)
Definition encode_basestring_ascii (s : str) : str :=
  dq ++ concat (escape_char <$> s) ++ dq.

(** [sep.join(chunks)] *)
Fixpoint join (sep : str) (chunks : list str) : str :=
  match chunks with
  | [] => []
  | [c] => c
  | c :: rest => c ++ sep ++ join sep rest
  end.

(** ['\n' + _indent * level] with [_indent = ' ' * indent]. *)
Definition newline_indent (indent level : nat) : str :=
  10 :: replicate (indent * level) 32.

(** [_iterencode(o, _current_indent_level)], its chunks concatenated. *)
Fixpoint iterencode (indent : nat) (o : json) (level : nat) : str :=
  match o with
  | JStr s => encode_basestring_ascii s
  | JNone => lit "null"
  | JBool true => lit "true"
  | JBool false => lit "false"
  | JInt n => str_of_int n
  | JList [] => lit "[]"
  | JList lst =>
      lit "[" ++ newline_indent indent (S level)
      ++ join (lit "," ++ newline_indent indent (S level))
           ((fun value => iterencode indent value (S level)) <$> lst)
      ++ newline_indent indent level ++ lit "]"
  | JDict [] => lit "{}"
  | JDict dct =>
      lit "{" ++ newline_indent indent (S level)
      ++ join (lit "," ++ newline_indent indent (S level))
           ((fun item => encode_basestring_ascii (fst item) ++ lit ": "
                         ++ iterencode indent (snd item) (S level)) <$> dct)
      ++ newline_indent indent level ++ lit "}"
  end.

(** What the loop of [_iterencode_dict] yields for one item: the key,
    the key separator and the value. *)
Definition item_text (indent level : nat) (item : str * json) : str :=
  encode_basestring_ascii (fst item) ++ lit ": "
  ++ iterencode indent (snd item) (S level).

(** The text [json.dump(obj, fp, indent=4)] writes. *)
Definition json_dump (obj : json) : str := iterencode 4 obj 0.

(** What a generator has yielded when it stops, and the exception that
    stopped it, if one did. *)
Definition yielded : Type := str * option exn.

(** Generators run one after the other. *)
Fixpoint chain (runs : list yielded) : yielded :=
  match runs with
  | [] => ([], None)
  | (text, Some e) :: _ => (text, Some e)
  | (text, None) :: rest =>
      let '(text', stop) := chain rest in (text ++ text', stop)
  end.

Definition is_container (o : json) : bool :=
  match o with
  | JList _ | JDict _ => true
  | _ => false
  end.

(** An element of a list with what goes before it: [yield buf + text]
    for a value that is no container, so that nothing is yielded when the
    conversion fails; [yield buf] and then the chunks of the value for a
    container. *)
Definition after_buf (buf : str) (container : bool) (run : yielded) : yielded :=
  match run with
  | (text, None) => (buf ++ text, None)
  | (text, Some e) => if container then (buf ++ text, Some e) else ([], Some e)
  end.

(** The loop of [_iterencode_list]: the first element comes after the
    bracket and the indentation, each other one after the separator. *)
Fixpoint elements_run (run : json -> yielded) (first_buf separator : str)
  (first : bool) (lst : list json) : list yielded :=
  match lst with
  | [] => []
  | value :: rest =>
      after_buf (if first then first_buf else separator) (is_container value) (run value)
      :: elements_run run first_buf separator false rest
  end.

(** The loop of [_iterencode_dict]: the separator, but before the first
    item, then the key and the key separator, then the value. *)
Fixpoint items_run (run : json -> yielded) (separator : str)
  (first : bool) (dct : list (str * json)) : list yielded :=
  match dct with
  | [] => []
  | item :: rest =>
      ((if first then [] else separator)
       ++ encode_basestring_ascii (fst item) ++ lit ": ", None)
      :: run (snd item)
      :: items_run run separator false rest
  end.

(** [_iterencode(o, _current_indent_level)] as it runs: the same chunks
    as [iterencode], up to an [int] that is too long for [int.__repr__]. *)
Fixpoint iterencode_run (indent : nat) (o : json) (level : nat) : yielded :=
  match o with
  | JInt n => if int_too_long n then ([], Some ValueError) else (str_of_int n, None)
  | JList [] => (lit "[]", None)
  | JList lst =>
      chain
        (elements_run (fun value => iterencode_run indent value (S level))
           (lit "[" ++ newline_indent indent (S level))
           (lit "," ++ newline_indent indent (S level)) true lst
         ++ [(newline_indent indent level ++ lit "]", None)])
  | JDict [] => (lit "{}", None)
  | JDict dct =>
      chain
        ((lit "{" ++ newline_indent indent (S level), None)
         :: items_run (fun value => iterencode_run indent value (S level))
              (lit "," ++ newline_indent indent (S level)) true dct
         ++ [(newline_indent indent level ++ lit "}", None)])
  | _ => (iterencode indent o level, None)
  end.

(** What [json.dump(obj, fp, indent=4)] has written when it stops. *)
Definition json_dump_run (obj : json) : yielded := iterencode_run 4 obj 0.

(** The coverage data as the [dict] it is, keys in insertion order. *)
Definition as_dict (coverage_data : CoverageData) : json :=
  JDict [
    (lit "coverage_percentage", JInt (coverage_percentage coverage_data));
    (lit "total_endpoints", JInt (total_endpoints coverage_data));
    (lit "covered_endpoints", JList (JStr <$> covered_endpoints coverage_data));
    (lit "uncovered_endpoints", JList (JStr <$> uncovered_endpoints coverage_data));
    (lit "timestamp", JStr (timestamp coverage_data))
  ].

(** ** The JSON decoder

    [json.load(fp)] is [JSONDecoder().decode(fp.read())].  The decoder
    below follows [json/decoder.py] and [json/scanner.py], reading the
    text that remains instead of keeping an index into it.  What it
    leaves out is said by the outcome [Beyond]: number literals with a
    fraction or an exponent and the constants [NaN], [Infinity] and
    [-Infinity], which the library turns into floats, and the integer
    literals too long for [int], which raise [ValueError]. *)

Inductive outcome (A : Type) : Type :=
  | Decoded (a : A)
  | JSONDecodeError
  | Beyond
  | OutOfFuel.

Arguments Decoded {A} a.
Arguments JSONDecodeError {A}.
Arguments Beyond {A}.
Arguments OutOfFuel {A}.

Definition obind {A B : Type} (o : outcome A) (k : A -> outcome B) : outcome B :=
  match o with
  | Decoded a => k a
  | JSONDecodeError => JSONDecodeError
  | Beyond => Beyond
  | OutOfFuel => OutOfFuel
  end.

(** [WHITESPACE_STR = ' \t\n\r'] *)
Definition is_ws (c : Z) : bool :=
  (c =? 32) || (c =? 9) || (c =? 10) || (c =? 13).

(** The text after [WHITESPACE.match(s, end).end()]. *)
Fixpoint skip_ws (s : str) : str :=
  match s with
  | c :: s' => if is_ws c then skip_ws s' else s
  | [] => []
  end.

Definition is_digit (c : Z) : bool := (48 <=? c) && (c <=? 57).

(** The value of a hexadecimal digit. *)
Definition hex_value (c : Z) : option Z :=
  if (48 <=? c) && (c <=? 57) then Some (c - 48)
  else if (97 <=? c) && (c <=? 102) then Some (c - 87)
  else if (65 <=? c) && (c <=? 70) then Some (c - 55)
  else None.

(** [_decode_uXXXX]: the number written by the four hexadecimal digits
    at the head of [s], the text after the [u]. *)
Definition decode_uXXXX (s : str) : outcome Z :=
  match s with
  | a :: b :: c :: d :: _ =>
      match hex_value a, hex_value b, hex_value c, hex_value d with
      | Some a, Some b, Some c, Some d => Decoded (((a * 16 + b) * 16 + c) * 16 + d)
      | _, _, _, _ => JSONDecodeError
      end
  | _ => JSONDecodeError
  end.

(** [BACKSLASH] *)
Definition backslash (esc : Z) : option Z :=
  if esc =? 34 then Some 34
  else if esc =? 92 then Some 92
  else if esc =? 47 then Some 47
  else if esc =? 98 then Some 8
  else if esc =? 102 then Some 12
  else if esc =? 110 then Some 10
  else if esc =? 114 then Some 13
  else if esc =? 116 then Some 9
  else None.

(** A high surrogate, [0xd800 <= c <= 0xdbff]. *)
Definition is_high (c : Z) : bool := (55296 <=? c) && (c <=? 56319).

(** A low surrogate, [0xdc00 <= c <= 0xdfff]. *)
Definition is_low (c : Z) : bool := (56320 <=? c) && (c <=? 57343).

(** [s[end:end + 2] == '\\u'] *)
Definition starts_with_u (s : str) : bool :=
  match s with
  | a :: b :: _ => (a =? 92) && (b =? 117)
  | _ => false
  end.

(** [scanstring(s, end, strict=True)], from the character after the
    opening quote: the decoded string and the text after the closing
    quote.  Each turn of the loop takes one unit of fuel and at least
    one character. *)
Fixpoint scanstring (fuel : nat) (s : str) (chunks : str) : outcome (str * str) :=
  match fuel with
  | O => OutOfFuel
  | S fuel =>
      match s with
      | [] => JSONDecodeError
      | c :: s1 =>
          if c =? 34 then Decoded (chunks, s1)
          else if c =? 92 then
            match s1 with
            | [] => JSONDecodeError
            | esc :: s2 =>
                if esc =? 117 then
                  obind (decode_uXXXX s2) (fun uni =>
                    let s3 := drop 4 s2 in
                    if is_high uni && starts_with_u s3 then
                      obind (decode_uXXXX (drop 2 s3)) (fun uni2 =>
                        if is_low uni2 then
                          let uni' :=
                            65536 + Z.lor (Z.shiftl (uni - 55296) 10) (uni2 - 56320) in
                          scanstring fuel (drop 6 s3) (chunks ++ [uni'])
                        else scanstring fuel s3 (chunks ++ [uni]))
                    else scanstring fuel s3 (chunks ++ [uni]))
                else
                  match backslash esc with
                  | Some char => scanstring fuel s2 (chunks ++ [char])
                  | None => JSONDecodeError
                  end
            end
          else if c <? 32 then JSONDecodeError
          else scanstring fuel s1 (chunks ++ [c])
      end
  end.

(** The digits at the head of [s], read into [acc]. *)
Fixpoint read_digits (s : str) (acc : Z) : Z * str :=
  match s with
  | c :: s' => if is_digit c then read_digits s' (acc * 10 + (c - 48)) else (acc, s)
  | [] => (acc, s)
  end.

(** The first group of [NUMBER_RE], an optional minus sign and then
    either a single 0 or a digit from 1 to 9 followed by any digits,
    matched at the head of [s] and converted by [int]: the number and the
    text after it. *)
Definition match_integer (s : str) : option (Z * str) :=
  let '(negative, s1) :=
    match s with
    | c :: s' => if c =? 45 then (true, s') else (false, s)
    | [] => (false, s)
    end in
  match s1 with
  | c :: s2 =>
      if c =? 48 then Some (0, s2)
      else if (49 <=? c) && (c <=? 57) then
        let '(n, rest) := read_digits s2 (c - 48) in
        Some (if negative then - n else n, rest)
      else None
  | [] => None
  end.

(** Whether the second group (a point and a digit) or the third (an
    [e] or [E], an optional sign and a digit) matches at the head of
    [s]. *)
Definition frac_or_exp (s : str) : bool :=
  match s with
  | 46 :: c :: _ => is_digit c
  | e :: c :: rest =>
      ((e =? 101) || (e =? 69))
      && (is_digit c
          || (((c =? 45) || (c =? 43))
              && match rest with
                 | c' :: _ => is_digit c'
                 | [] => false
                 end))
  | _ => false
  end.

(** [s.startswith(prefix)], by which the slices [string[idx:idx + k]] are
    compared. *)
Fixpoint startswith (prefix s : str) : bool :=
  match prefix, s with
  | [], _ => true
  | p :: prefix', c :: s' => (p =? c) && startswith prefix' s'
  | _ :: _, [] => false
  end.

(** [dict(pairs)]: a key that comes again keeps its place and takes the
    new value. *)
Fixpoint dict_set (items : list (str * json)) (key : str) (value : json)
  : list (str * json) :=
  match items with
  | [] => [(key, value)]
  | (k, v) :: rest =>
      if decide (k = key) then (k, value) :: rest
      else (k, v) :: dict_set rest key value
  end.

Definition dict (pairs : list (str * json)) : list (str * json) :=
  foldl (fun items pair => dict_set items (fst pair) (snd pair)) [] pairs.

(** [_scan_once], and the loops of [JSONObject] and [JSONArray] that call
    it back.  A [StopIteration] of the scanner reaches the caller as the
    [JSONDecodeError] "Expecting value".  Each call and each turn of a
    loop takes one unit of fuel. *)
Fixpoint scan_once (fuel : nat) (s : str) {struct fuel} : outcome (json * str) :=
  match fuel with
  | O => OutOfFuel
  | S fuel =>
      match s with
      | [] => JSONDecodeError
      | nextchar :: s1 =>
          if nextchar =? 34 then
            obind (scanstring (length s1) s1 []) (fun r => Decoded (JStr (fst r), snd r))
          else if nextchar =? 123 then
            (* JSONObject, up to its loop *)
            match skip_ws s1 with
            | 125 :: rest => Decoded (JDict [], rest)
            | 34 :: rest => object_loop fuel rest []
            | _ => JSONDecodeError
            end
          else if nextchar =? 91 then
            (* JSONArray, up to its loop *)
            match skip_ws s1 with
            | 93 :: rest => Decoded (JList [], rest)
            | s2 => array_loop fuel s2 []
            end
          else if startswith (lit "null") s then Decoded (JNone, drop 4 s)
          else if startswith (lit "true") s then Decoded (JBool true, drop 4 s)
          else if startswith (lit "false") s then Decoded (JBool false, drop 5 s)
          else
            match match_integer s with
            | Some (n, rest) =>
                if frac_or_exp rest || int_too_long n then Beyond
                else Decoded (JInt n, rest)
            | None =>
                if startswith (lit "NaN") s || startswith (lit "Infinity") s
                   || startswith (lit "-Infinity") s
                then Beyond
                else JSONDecodeError
            end
      end
  end

with object_loop (fuel : nat) (s : str) (pairs : list (str * json)) {struct fuel}
  : outcome (json * str) :=
  match fuel with
  | O => OutOfFuel
  | S fuel =>
      obind (scanstring (length s) s []) (fun r =>
      let key := fst r in
      match (match snd r with
             | 58 :: _ => snd r
             | _ => skip_ws (snd r)
             end) with
      | 58 :: s2 =>
          obind (scan_once fuel (skip_ws s2)) (fun r' =>
          let pairs := pairs ++ [(key, fst r')] in
          match skip_ws (snd r') with
          | 125 :: rest => Decoded (JDict (dict pairs), rest)
          | 44 :: s4 =>
              match skip_ws s4 with
              | 34 :: s5 => object_loop fuel s5 pairs
              | _ => JSONDecodeError
              end
          | _ => JSONDecodeError
          end)
      | _ => JSONDecodeError
      end)
  end

with array_loop (fuel : nat) (s : str) (values : list json) {struct fuel}
  : outcome (json * str) :=
  match fuel with
  | O => OutOfFuel
  | S fuel =>
      obind (scan_once fuel s) (fun r =>
      let values := values ++ [fst r] in
      match skip_ws (snd r) with
      | 93 :: rest => Decoded (JList values, rest)
      | 44 :: s2 => array_loop fuel (skip_ws s2) values
      | _ => JSONDecodeError
      end)
  end.

(** [JSONDecoder.decode(s)]: one value, with nothing but whitespace
    around it.  A value takes at least one character, so the length of
    the text is fuel enough. *)
Definition json_loads (s : str) : outcome json :=
  obind (scan_once (S (length s)) (skip_ws s)) (fun r =>
    match skip_ws (snd r) with
    | [] => Decoded (fst r)
    | _ => JSONDecodeError
    end).

(** A string that survives the escapes: every code point is one
    ([0 <= c < 0x110000]), and no high surrogate stands directly before a
    low one. *)
Definition code_point (c : Z) : bool := (0 <=? c) && (c <? 1114112).

Fixpoint no_surrogate_pair (s : str) : bool :=
  match s with
  | c :: s' =>
      negb (is_high c && match s' with c' :: _ => is_low c' | [] => false end)
      && no_surrogate_pair s'
  | [] => true
  end.

Definition json_safe (s : str) : bool := forallb code_point s && no_surrogate_pair s.

(** Coverage data whose strings all survive. *)
Definition json_safe_data (d : CoverageData) : bool :=
  forallb json_safe (covered_endpoints d)
  && forallb json_safe (uncovered_endpoints d)
  && json_safe (timestamp d).

(** The text [s] does not go on with the escape of a low surrogate. *)
Definition no_low_escape (s : str) : Prop :=
  starts_with_u s = false
  \/ exists v, decode_uXXXX (drop 2 s) = Decoded v /\ is_low v = false.

(** The value [v], written at the given indentation level and followed
    by a comma or a line break, is read back by the scanner, whatever fuel
    above [N] it is given; and its text starts with no whitespace. *)
Definition reads_back (indent level N : nat) (v : json) : Prop :=
  (forall (fuel : nat) (c0 : Z) (rest : str),
     (N < fuel)%nat -> c0 = 44 \/ c0 = 10 ->
     scan_once fuel (iterencode indent v level ++ c0 :: rest) = Decoded (v, c0 :: rest))
  /\ (forall rest : str,
        skip_ws (iterencode indent v level ++ rest) = iterencode indent v level ++ rest).

(** ** The HTML document *)

(** The f-string [html_content] of [generate_mock_coverage_html], with
    the text put in for a replacement field [{ep}] left open: [field ep]
    is what the field contributes. *)
Definition html_page (field : str -> str) (coverage_data : CoverageData) : str :=
  let coverage_percentage := coverage_percentage coverage_data in
  let total_endpoints := total_endpoints coverage_data in
  let covered_endpoints := covered_endpoints coverage_data in
  let uncovered_endpoints := uncovered_endpoints coverage_data in
  let timestamp := timestamp coverage_data in
  lit "
    <!DOCTYPE html>
    <html>
    <head>
        <title>RESTler Coverage Report</title>
        <style>
            body {
                font-family: Arial, sans-serif;
                margin: 40px;
                background-color: #f4f4f4;
            }
            .coverage-summary {
                width: 90%;
                margin: auto;
                background: #fff;
                padding: 20px;
                border-radius: 8px;
                box-shadow: 0 0 10px rgba(0,0,0,0.1);
            }
            .coverage-bar {
                width: 100%;
                background-color: #ddd;
                border-radius: 25px;
                overflow: hidden;
                margin: 20px 0;
            }
            .coverage-bar-fill {
                height: 30px;
                width: "
  ++ str_of_int coverage_percentage
  ++ lit "%;
                background-color: #4CAF50;
                text-align: center;
                line-height: 30px;
                color: white;
                border-radius: 25px 0 0 25px;
                transition: width 0.5s;
            }
            .details {
                text-align: left;
                margin-top: 20px;
            }
            .endpoint-list {
                max-height: 300px;
                overflow-y: scroll;
                border: 1px solid #ccc;
                padding: 10px;
                border-radius: 5px;
                background-color: #f9f9f9;
            }
            .covered {
                color: green;
            }
            .uncovered {
                color: red;
            }
            .timestamp {
                margin-top: 20px;
                font-size: 0.9em;
                color: #555;
            }
            h1, h2 {
                text-align: center;
            }
        </style>
    </head>
    <body>
        <div class=" ++ dq ++ lit "coverage-summary" ++ dq ++ lit ">
            <h1>RESTler Coverage Report</h1>
            <p><strong>Coverage Percentage:</strong> "
  ++ str_of_int coverage_percentage
  ++ lit "%</p>
            <div class=" ++ dq ++ lit "coverage-bar" ++ dq ++ lit ">
                <div class=" ++ dq ++ lit "coverage-bar-fill" ++ dq ++ lit ">"
  ++ str_of_int coverage_percentage
  ++ lit "%</div>
            </div>
            <div class=" ++ dq ++ lit "details" ++ dq ++ lit ">
                <p><strong>Total Endpoints:</strong> "
  ++ str_of_int total_endpoints
  ++ lit "</p>
                <h2>Covered Endpoints ("
  ++ str_of_int (len covered_endpoints)
  ++ lit "):</h2>
                <div class=" ++ dq ++ lit "endpoint-list" ++ dq ++ lit ">
                    <ul>
                        "
  ++ concat ((fun ep => lit "<li class=" ++ dq ++ lit "covered" ++ dq ++ lit ">" ++ field ep ++ lit "</li>") <$> covered_endpoints)
  ++ lit "
                    </ul>
                </div>
                <h2>Uncovered Endpoints ("
  ++ str_of_int (len uncovered_endpoints)
  ++ lit "):</h2>
                <div class=" ++ dq ++ lit "endpoint-list" ++ dq ++ lit ">
                    <ul>
                        "
  ++ concat ((fun ep => lit "<li class=" ++ dq ++ lit "uncovered" ++ dq ++ lit ">" ++ field ep ++ lit "</li>") <$> uncovered_endpoints)
  ++ lit "
                    </ul>
                </div>
            </div>
            <div class=" ++ dq ++ lit "timestamp" ++ dq ++ lit ">
                Report generated at: "
  ++ timestamp
  ++ lit "
            </div>
        </div>
    </body>
    </html>
    ".

(** [html_content]: a replacement field formats a [str] as the string
    itself. *)
Definition html_content (coverage_data : CoverageData) : str :=
  html_page (fun ep => ep) coverage_data.

(** The escaping the specification asks of the emitter, as [html.escape]
    does it: the five characters with a meaning in markup are replaced by
    character references. *)
Definition html_escape_char (c : Z) : str :=
  if c =? 38 then lit "&amp;"
  else if c =? 60 then lit "&lt;"
  else if c =? 62 then lit "&gt;"
  else if c =? 34 then lit "&quot;"
  else if c =? 39 then lit "&#x27;"
  else [c].

Definition html_escape (s : str) : str := concat (html_escape_char <$> s).

(** The document the specification describes: every identifier escaped. *)
Definition html_content_escaped (coverage_data : CoverageData) : str :=
  html_page html_escape coverage_data.

(** A character with a meaning in markup. *)
Definition html_special (c : Z) : bool :=
  (c =? 38) || (c =? 60) || (c =? 62) || (c =? 34) || (c =? 39).

(** [x] occurs in [y] as a contiguous piece. *)
Definition occurs_in (x y : str) : Prop := exists pre post, y = pre ++ x ++ post.

(** The item the f-string writes for an endpoint of the given class. *)
Definition list_item (class ep : str) : str :=
  lit "<li class=" ++ dq ++ class ++ dq ++ lit ">" ++ ep ++ lit "</li>".

(** ** The text of the page, as the f-string is evaluated

    The f-string converts four [int]s; one that is too long stops it with
    [ValueError], before the file is opened. *)
Definition html_render (coverage_data : CoverageData) : result str :=
  if int_too_long (coverage_percentage coverage_data)
     || int_too_long (total_endpoints coverage_data)
     || int_too_long (len (covered_endpoints coverage_data))
     || int_too_long (len (uncovered_endpoints coverage_data))
  then inl ValueError
  else inr (html_content coverage_data).

(** ** The operating system

    What the files and the directories under the names of a request
    decide of it is decided below, in [makedirs], [open_w] and [f_write].
    Whatever else makes the operating system refuse a request
    (permissions, a read-only or a full disk, a name it does not take, an
    entry that a name reaches only once the directories above it are
    made) is its own answer: the exception, with the directories made
    before it for [os.makedirs] and what is left in the file for a
    write. *)
Class Os : Type := {
  (** [os.makedirs(path, exist_ok=True)] *)
  refuses_makedirs : str -> option (exn * list str);
  (** [open(path, 'w')] *)
  refuses_open : str -> option exn;
  (** writing a text to the file opened at a path, and closing it *)
  refuses_write : str -> str -> option (exn * str)
}.

(** An operating system that refuses nothing of its own. *)
Definition granting_os : Os := {|
  refuses_makedirs := fun _ => None;
  refuses_open := fun _ => None;
  refuses_write := fun _ _ => None
|}.

(** ** The interpreter's surroundings *)

Section Program.
Context `{Random} `{Yaml} `{Os}.

Record World : Type := {
  (** the state of the generator behind [random.seed] and [random.shuffle] *)
  w_rng : rng_state;
  (** what [datetime.utcnow().isoformat()] returns *)
  w_utcnow : str;
  (** [os.getcwd()] *)
  w_cwd : str;
  (** the regular files and their content, by the names that reach them *)
  w_files : gmap str str;
  (** the directories that exist, by the names that reach them *)
  w_dirs : gset str;
  (** the lines printed so far *)
  w_stdout : list str
}.

(** A computation that reads and changes the surroundings and may raise. *)
Definition M (A : Type) : Type := World -> result A * World.

#[export] Instance M_ret : MRet M := fun A a w => (inr a, w).

#[export] Instance M_bind : MBind M := fun A B k m w =>
  match m w with
  | (inl e, w') => (inl e, w')
  | (inr a, w') => k a w'
  end.

(** A computation that only raises or returns. *)
Definition lift {A : Type} (r : result A) : M A := fun w => (r, w).

Definition set_rng (w : World) (s : rng_state) : World :=
  {| w_rng := s; w_utcnow := w_utcnow w; w_cwd := w_cwd w;
     w_files := w_files w; w_dirs := w_dirs w; w_stdout := w_stdout w |}.

Definition set_files (w : World) (files : gmap str str) : World :=
  {| w_rng := w_rng w; w_utcnow := w_utcnow w; w_cwd := w_cwd w;
     w_files := files; w_dirs := w_dirs w; w_stdout := w_stdout w |}.

Definition set_dirs (w : World) (dirs : gset str) : World :=
  {| w_rng := w_rng w; w_utcnow := w_utcnow w; w_cwd := w_cwd w;
     w_files := w_files w; w_dirs := dirs; w_stdout := w_stdout w |}.

Definition set_stdout (w : World) (lines : list str) : World :=
  {| w_rng := w_rng w; w_utcnow := w_utcnow w; w_cwd := w_cwd w;
     w_files := w_files w; w_dirs := w_dirs w; w_stdout := lines |}.

(** [print(line)] *)
Definition print (line : str) : M unit := fun w =>
  (inr tt, set_stdout w (w_stdout w ++ [line])).

(** [os.getcwd()] *)
Definition getcwd : M str := fun w => (inr (w_cwd w), w).

(** [os.path.isfile(path)] *)
Definition isfile (path : str) : M bool := fun w =>
  (inr (bool_decide (is_Some (w_files w !! path))), w).

(** [with open(path, 'r') as file: yaml.safe_load(file)], by the way it
    ends. *)
Definition open_safe_load (path : str) : M loaded := fun w =>
  match w_files w !! path with
  | Some text => (inr (safe_load text), w)
  | None => (inl FileNotFoundError, w)
  end.

(** Whether one of the paths is a regular file. *)
Definition some_file (w : World) (paths : list str) : bool :=
  existsb (fun p => bool_decide (is_Some (w_files w !! p))) paths.

(** Whether a directory part names a directory that exists: the working
    directory, the root, or a known directory, with or without the
    separators after its name. *)
Definition dir_exists (w : World) (dir : str) : bool :=
  bool_decide (dir = []) || bool_decide (rstrip_sep dir = [])
  || bool_decide (dir ∈ w_dirs w) || bool_decide (rstrip_sep dir ∈ w_dirs w).

(** [os.makedirs(path, exist_ok=True)].  A regular file under the name
    is the one existing entry that [exist_ok] does not silence; the empty
    path names nothing; a regular file above the path is no directory.
    Otherwise the directory and those above it are there afterwards,
    unless the operating system refuses. *)
Definition makedirs (path : str) : M unit := fun w =>
  if bool_decide (is_Some (w_files w !! path))
     || bool_decide (is_Some (w_files w !! rstrip_sep path))
  then (inl FileExistsError, w)
  else if bool_decide (path = []) then (inl FileNotFoundError, w)
  else if some_file w (ancestors path) then (inl NotADirectoryError, w)
  else
    match refuses_makedirs path with
    | Some (e, made) => (inl e, set_dirs w (list_to_set made ∪ w_dirs w))
    | None => (inr tt, set_dirs w (list_to_set (path :: ancestors path) ∪ w_dirs w))
    end.

(** [open(path, 'w')]: the file is created, or emptied if it is there.
    The empty path names nothing.  The names above the file are resolved
    first: a regular file among them is no directory, and the directory
    the file goes in must exist.  Then a directory cannot be opened for
    writing, nor can a path that ends in a separator. *)
Definition open_w (path : str) : M unit := fun w =>
  if bool_decide (path = []) then (inl FileNotFoundError, w)
  else if some_file w (ancestors (rstrip_sep path)) then (inl NotADirectoryError, w)
  else if negb (dir_exists w (dir_part (rstrip_sep path)))
  then (inl FileNotFoundError, w)
  else if bool_decide (last path = Some sep) || bool_decide (path ∈ w_dirs w)
  then (inl IsADirectoryError, w)
  else
    match refuses_open path with
    | Some e => (inl e, w)
    | None => (inr tt, set_files w (<[path:=[]]> (w_files w)))
    end.

(** [f.write(text)] on the file opened at [path], and the end of the
    [with] block: a text that cannot be encoded raises
    [UnicodeEncodeError] and nothing of it is written. *)
Definition f_write (path text : str) : M unit := fun w =>
  if negb (encodable text) then (inl UnicodeEncodeError, w)
  else
    match refuses_write path text with
    | Some (e, remains) => (inl e, set_files w (<[path:=remains]> (w_files w)))
    | None => (inr tt, set_files w (<[path:=text]> (w_files w)))
    end.

(** [with open(path, 'w') as f: f.write(text)] *)
Definition write_file (path text : str) : M unit :=
  open_w path;; f_write path text.

(** [with open(path, 'w') as f: json.dump(obj, f, indent=4)]: the chunks
    yielded are written, and an exception that stops the encoder leaves
    the block after them. *)
Definition dump_file (path : str) (obj : json) : M unit :=
  open_w path;;
  f_write path (json_dump_run obj).1;;
  match (json_dump_run obj).2 with
  | Some e => lift (inl e)
  | None => mret tt
  end.

(** [random.seed(a)] *)
Definition random_seed (a : Z) : M unit := fun w =>
  (inr tt, set_rng w (seed a)).

(** [random.shuffle(x)]; the shuffled list is the result, as the model has
    no list mutated in place. *)
Definition random_shuffle {A : Type} (x : list A) : M (list A) := fun w =>
  let '(r, s) := shuffle x (w_rng w) in (r, set_rng w s).

(** [datetime.utcnow().isoformat()] *)
Definition utcnow_isoformat : M str := fun w => (inr (w_utcnow w), w).

(** ** The program *)

(** [parse_openapi_yaml(yaml_file_path)] *)
Definition parse_openapi_yaml (yaml_file_path : str) : M (list str) :=
  found ← isfile yaml_file_path;
  if negb found then
    print (lit "YAML file not found at path: " ++ yaml_file_path);;
    mret []
  else
    loaded ← open_safe_load yaml_file_path;
    match loaded with
    | Raised e => lift (inl e)
    | YAMLError exc =>
        print (lit "Error parsing YAML file: " ++ exc);;
        mret []
    | Document openapi_spec =>
        paths ← lift (get openapi_spec (lit "paths") (YDict []));
        path_keys ← lift (keys paths);
        mret (foldl (fun endpoints path => endpoints ++ [path]) [] path_keys)
    end.

(** [calculate_coverage(endpoints, coverage_percentage)] *)
Definition calculate_coverage (endpoints : list str) (coverage_percentage : Z)
  : M CoverageData :=
  let total_endpoints := len endpoints in
  count ← lift (covered_count coverage_percentage total_endpoints);
  let shuffled_endpoints := endpoints in
  random_seed 42;;
  shuffled_endpoints ← random_shuffle shuffled_endpoints;
  let covered_endpoints := slice_to shuffled_endpoints count in
  let uncovered_endpoints := slice_from shuffled_endpoints count in
  now ← utcnow_isoformat;
  mret {| coverage_percentage := coverage_percentage;
          total_endpoints := total_endpoints;
          covered_endpoints := covered_endpoints;
          uncovered_endpoints := uncovered_endpoints;
          timestamp := now ++ lit "Z" |}.

(** The mark the two emitters print before their message. *)
Definition check_mark : str := [8218; 250; 214].

(** [generate_mock_coverage_json(coverage_data, output_dir)] *)
Definition generate_mock_coverage_json (coverage_data : CoverageData)
  (output_dir : str) : M unit :=
  makedirs output_dir;;
  let output_file := path_join output_dir (lit "restler_coverage.json") in
  dump_file output_file (as_dict coverage_data);;
  print (check_mark ++ lit " Mock JSON coverage report generated at: " ++ output_file).

(** [generate_mock_coverage_html(coverage_data, output_dir)] *)
Definition generate_mock_coverage_html (coverage_data : CoverageData)
  (output_dir : str) : M unit :=
  html_content ← lift (html_render coverage_data);
  let output_file := path_join output_dir (lit "restler_coverage.html") in
  write_file output_file html_content;;
  print (check_mark ++ lit " Mock HTML coverage report generated at: " ++ output_file).

(** [main()] *)
Definition main : M unit :=
  project_root ← getcwd;
  let yaml_file_name := lit "api_spec.yaml" in
  let yaml_file_path := path_join project_root yaml_file_name in
  let output_dir := path_join project_root (lit "coverage_reports") in
  endpoints ← parse_openapi_yaml yaml_file_path;
  match endpoints with
  | [] =>
      print ([8218; 249; 229] ++ lit " No endpoints found or failed to parse YAML. Exiting.")
  | _ =>
      coverage_data ← calculate_coverage endpoints 71;
      generate_mock_coverage_json coverage_data output_dir;;
      generate_mock_coverage_html coverage_data output_dir;;
      print ([10; 63743; 252; 233; 226]
             ++ lit " Mock coverage reports generation completed successfully!")
  end.

End Program.


(** What a call leaves of interest to a reader of the partition: the
    exception, or the two subsets. *)
Definition partition_of (r : result CoverageData) : result (list str * list str) :=
  match r with
  | inl e => inl e
  | inr d => inr (covered_endpoints d, uncovered_endpoints d)
  end.

(** ** Concrete inputs, for running the model *)

(** Fifty endpoints, [/e0] to [/e49]. *)
Definition fifty_endpoints : list str :=
  (fun i => lit "/e" ++ str_of_int (Z.of_nat i)) <$> seq 0 50.

(** The four endpoints of the scenario of the specification. *)
Definition four_endpoints : list str := [lit "/a"; lit "/b"; lit "/c"; lit "/d"].

(** Coverage data for the four endpoints, two covered: what the driver
    computes under [lcg_random]. *)
Definition four_data : CoverageData := {|
  coverage_percentage := 71;
  total_endpoints := 4;
  covered_endpoints := [lit "/a"; lit "/c"];
  uncovered_endpoints := [lit "/d"; lit "/b"];
  timestamp := lit "2024-05-01T12:00:00.000000Z"
|}.

(** Coverage data with one covered endpoint that is markup. *)
Definition markup_data : CoverageData := {|
  coverage_percentage := 100;
  total_endpoints := 1;
  covered_endpoints := [lit "/<b>"];
  uncovered_endpoints := [];
  timestamp := lit "2024-05-01T12:00:00.000000Z"
|}.

(** Coverage data with an endpoint made of the two surrogates of
    U+1F600, each a character of its own. *)
Definition surrogate_data : CoverageData := {|
  coverage_percentage := 71;
  total_endpoints := 1;
  covered_endpoints := [];
  uncovered_endpoints := [[47; 55357; 56832]];
  timestamp := lit "2024-05-01T12:00:00.000000Z"
|}.

(** A loader that knows four documents, each with the value
    [yaml.safe_load] gives it: the empty document, a document with no
    [paths] key, a document with an empty [paths] mapping, and a document
    that declares the four endpoints.  Every other text is refused. *)
Definition four_paths_text : str :=
  lit "paths:
  /a: {}
  /b: {}
  /c: {}
  /d: {}
".

Definition table_yaml : Yaml := {|
  safe_load := fun text =>
    if bool_decide (text = []) then Document YNone
    else if bool_decide (text = lit "info: {}") then
      Document (YDict [(lit "info", YDict [])])
    else if bool_decide (text = lit "paths: {}") then
      Document (YDict [(lit "paths", YDict [])])
    else if bool_decide (text = four_paths_text) then
      Document (YDict [(lit "paths",
                        YDict [(lit "/a", YDict []); (lit "/b", YDict []);
                               (lit "/c", YDict []); (lit "/d", YDict [])])])
    else YAMLError (lit "document outside the table")
|}.

(** Surroundings with the working directory [/repo] and the given text
    in [/repo/api_spec.yaml], or no such file. *)
Definition world_with (spec : option str) : @World lcg_random :=
  @Build_World lcg_random
    7
    (lit "2024-05-01T12:00:00.000000")
    (lit "/repo")
    match spec with
    | Some text => {[ lit "/repo/api_spec.yaml" := text ]}
    | None => ∅
    end
    {[ lit "/repo" ]}
    [].
(** * Properties *)

(** ** Slices and item assignment *)

Section ListFacts.
Context {A : Type}.
Implicit Types (x : list A) (k i j : Z).

Lemma slice_bound_le k n : (slice_bound k n <= n)%nat.
Proof. unfold slice_bound. destruct (k <? 0) eqn:E; lia. Qed.

Lemma slice_bound_nonneg k n :
  0 <= k -> slice_bound k n = Nat.min (Z.to_nat k) n.
Proof.
  intros Hk. unfold slice_bound.
  destruct (k <? 0) eqn:E; [apply Z.ltb_lt in E; lia | lia].
Qed.

(** [x[:k] + x[k:] == x] for every bound. *)
Lemma slice_to_from x k : slice_to x k ++ slice_from x k = x.
Proof. apply take_drop. Qed.

Lemma slice_to_length x k : length (slice_to x k) = slice_bound k (length x).
Proof.
  unfold slice_to. rewrite length_take.
  pose proof (slice_bound_le k (length x)). lia.
Qed.

Lemma slice_to_take x k :
  0 <= k -> slice_to x k = take (Z.to_nat k) x.
Proof.
  intros Hk. unfold slice_to. rewrite slice_bound_nonneg by done.
  destruct (decide (Z.to_nat k <= length x)%nat).
  - by rewrite Nat.min_l.
  - rewrite Nat.min_r by lia. rewrite !take_ge; [done | lia | lia].
Qed.

Lemma slice_from_drop x k :
  0 <= k -> slice_from x k = drop (Z.to_nat k) x.
Proof.
  intros Hk. unfold slice_from. rewrite slice_bound_nonneg by done.
  destruct (decide (Z.to_nat k <= length x)%nat).
  - by rewrite Nat.min_l.
  - rewrite Nat.min_r by lia. rewrite !drop_ge; [done | lia | lia].
Qed.

Lemma index_in_range x i :
  0 <= i < len x -> index x i = inr (Z.to_nat i).
Proof.
  intros [Hi Hlt]. unfold index.
  destruct (i <? 0) eqn:E; [apply Z.ltb_lt in E; lia |].
  destruct (0 <=? i) eqn:E1; [| apply Z.leb_gt in E1; lia].
  destruct (i <? len x) eqn:E2; [done | apply Z.ltb_ge in E2; lia].
Qed.

Lemma getitem_in_range x i :
  0 <= i < len x -> exists a, x !! Z.to_nat i = Some a /\ getitem x i = inr a.
Proof.
  intros Hi. unfold getitem. rewrite index_in_range by done. simpl.
  destruct (lookup_lt_is_Some_2 x (Z.to_nat i)) as [a Ha].
  { unfold len in Hi. lia. }
  exists a. by rewrite Ha.
Qed.

(** Within bounds the exchange raises nothing and rearranges the list. *)
Lemma swap_in_range x i j :
  0 <= i < len x -> 0 <= j < len x ->
  exists x', swap x i j = inr x' /\ x' ≡ₚ x.
Proof.
  intros Hi Hj. unfold swap.
  destruct (getitem_in_range x j Hj) as (xj & Hxj & ->).
  destruct (getitem_in_range x i Hi) as (xi & Hxi & ->). simpl.
  unfold setitem. rewrite index_in_range by done. simpl.
  rewrite index_in_range by (unfold len in *; rewrite length_insert; done).
  simpl. eexists. split; [done |].
  by apply Permutation_insert_swap.
Qed.

End ListFacts.

(** ** The shuffle *)

Section ShuffleFacts.
Context `{Random} {A : Type}.
Implicit Types (x : list A) (s : rng_state).

(** Entered below the length of the list, the loop raises nothing and
    leaves a rearrangement of the list. *)
Lemma shuffle_loop_permutation (i : nat) x s :
  (i < length x)%nat ->
  exists x' s', shuffle_loop i x s = (inr x', s') /\ x' ≡ₚ x.
Proof.
  revert x s. induction i as [| i IH]; intros x s Hi.
  - exists x, s. by split.
  - cbn [shuffle_loop].
    pose proof (randbelow_range (Z.of_nat (S i) + 1) s ltac:(lia)) as Hj.
    destruct (randbelow (Z.of_nat (S i) + 1) s) as [j s1]. simpl in Hj.
    destruct (swap_in_range x (Z.of_nat (S i)) j) as (x1 & -> & Hperm).
    { unfold len. lia. }
    { unfold len. lia. }
    destruct (IH x1 s1) as (x' & s' & -> & Hperm').
    { rewrite (Permutation_length Hperm). lia. }
    exists x', s'. split; [done |]. by rewrite Hperm'.
Qed.

(** [random.shuffle] raises nothing and leaves a rearrangement. *)
Lemma shuffle_permutation x s :
  exists x' s', shuffle x s = (inr x', s') /\ x' ≡ₚ x.
Proof.
  unfold shuffle. destruct x as [| a x].
  - exists [], s. by split.
  - apply shuffle_loop_permutation. simpl. lia.
Qed.

(** The empty list is shuffled without a draw. *)
Lemma shuffle_nil s : shuffle (@nil A) s = (inr [], s).
Proof. reflexivity. Qed.

End ShuffleFacts.

(** ** Binary64 arithmetic *)

Module PyFloatFacts.
Import PyFloat.

Lemma digits2_pos_size (p : positive) : digits2_pos p = Pos.size p.
Proof. induction p; simpl; congruence. Qed.

(** The number of binary digits of a positive mantissa. *)
Lemma Zdigits2_log2 (p : positive) : Zdigits2 (Z.pos p) = Z.log2 (Z.pos p) + 1.
Proof.
  simpl. rewrite digits2_pos_size.
  destruct p; simpl; rewrite ?Pos2Z.inj_succ; lia.
Qed.

Lemma Zdigits2_nonneg (m : Z) : 0 <= Zdigits2 m.
Proof. destruct m; simpl; lia. Qed.

Lemma Zdigits2_le (m n : Z) : 0 <= m <= n -> Zdigits2 m <= Zdigits2 n.
Proof.
  intros [Hm Hn]. destruct m as [| p |]; [apply Zdigits2_nonneg | | lia].
  destruct n as [| q |]; [lia | | lia].
  rewrite !Zdigits2_log2. pose proof (Z.log2_le_mono (Z.pos p) (Z.pos q) Hn). lia.
Qed.

Lemma Zdigits2_succ (m : Z) : 0 <= m -> Zdigits2 (m + 1) <= Zdigits2 m + 1.
Proof.
  intros Hm. destruct m as [| p |]; [simpl; lia | | lia].
  replace (Z.pos p + 1) with (Z.pos (p + 1)) by lia.
  rewrite !Zdigits2_log2.
  pose proof (Z.log2_succ_le (Z.pos p)). 
  replace (Z.pos (p + 1)) with (Z.succ (Z.pos p)) by lia. lia.
Qed.

Lemma Zdigits2_shiftr (m n : Z) :
  0 <= m -> 0 <= n -> Zdigits2 (Z.shiftr m n) = Z.max 0 (Zdigits2 m - n).
Proof.
  intros Hm Hn. destruct m as [| p |]; [| | lia].
  { rewrite Z.shiftr_0_l. cbn [Zdigits2]. lia. }
  rewrite (Zdigits2_log2 p).
  assert (Hs : 0 <= Z.shiftr (Z.pos p) n) by (apply Z.shiftr_nonneg; lia).
  destruct (Z.le_gt_cases n (Z.log2 (Z.pos p))) as [Hle | Hgt].
  - assert (Hpos : 0 < Z.shiftr (Z.pos p) n).
    { rewrite Z.shiftr_div_pow2 by done.
      apply Z.div_str_pos. split; [apply Z.pow_pos_nonneg; lia |].
      apply Z.log2_le_pow2; lia. }
    destruct (Z.shiftr (Z.pos p) n) as [| q |] eqn:E; [lia | | lia].
    rewrite Zdigits2_log2, <- E, Z.log2_shiftr by lia. lia.
  - rewrite Z.shiftr_eq_0 by lia. cbn [Zdigits2]. lia.
Qed.

(** One step of the shift: the mantissa is halved. *)
Lemma shr_1_m (mrs : shr_record) :
  0 <= shr_m mrs -> shr_m (shr_1 mrs) = Z.shiftr (shr_m mrs) 1.
Proof.
  destruct mrs as [m r s]. simpl. intros Hm.
  destruct m as [| [p | p |] |]; try lia; try reflexivity.
Qed.

Lemma iter_pos_shr_m (p : positive) (mrs : shr_record) :
  0 <= shr_m mrs ->
  shr_m (SpecFloat.iter_pos shr_1 p mrs) = Z.shiftr (shr_m mrs) (Z.pos p).
Proof.
  revert mrs. induction p as [p IH | p IH |]; intros mrs Hm; simpl.
  - assert (H1 : 0 <= shr_m (shr_1 mrs)).
    { rewrite shr_1_m by done. by apply Z.shiftr_nonneg. }
    assert (H2 : 0 <= shr_m (SpecFloat.iter_pos shr_1 p (shr_1 mrs))).
    { rewrite IH by done. by apply Z.shiftr_nonneg. }
    rewrite IH, IH, shr_1_m by done.
    rewrite !Z.shiftr_shiftr by lia. f_equal. lia.
  - assert (H2 : 0 <= shr_m (SpecFloat.iter_pos shr_1 p mrs)).
    { rewrite IH by done. by apply Z.shiftr_nonneg. }
    rewrite IH, IH by done.
    rewrite !Z.shiftr_shiftr by lia. f_equal. lia.
  - by apply shr_1_m.
Qed.


Lemma fexp_eq (x : Z) : fexp prec emax x = Z.max (x - 53) (-1074).
Proof. reflexivity. Qed.

Lemma shr_record_of_loc_m (m : Z) (l : location) : shr_m (shr_record_of_loc m l) = m.
Proof. by destruct l as [| []]. Qed.

(** The first half of a rounding: the mantissa is shifted down to the
    exponent its magnitude calls for. *)
Lemma shr_fexp_spec (m e : Z) (l : location) :
  0 <= m ->
  exists mrs e',
    shr_fexp prec emax m e l = (mrs, e')
    /\ e' = Z.max e (fexp prec emax (Zdigits2 m + e))
    /\ shr_m mrs = Z.shiftr m (e' - e)
    /\ Zdigits2 (shr_m mrs) + e' <= Z.max (Zdigits2 m + e) e'.
Proof.
  intros Hm. unfold shr_fexp, shr.
  pose proof (Zdigits2_nonneg m) as Hd.
  destruct (fexp prec emax (Zdigits2 m + e) - e) as [| p | p] eqn:E.
  - eexists _, _. split; [done |]. rewrite shr_record_of_loc_m.
    replace (Z.max e (fexp prec emax (Zdigits2 m + e))) with e by lia.
    rewrite Z.sub_diag, Z.shiftr_0_r. repeat split; lia.
  - eexists _, _. split; [done |].
    rewrite iter_pos_shr_m by (rewrite shr_record_of_loc_m; done).
    rewrite shr_record_of_loc_m.
    replace (Z.max e (fexp prec emax (Zdigits2 m + e))) with (e + Z.pos p) by lia.
    replace (e + Z.pos p - e) with (Z.pos p) by lia.
    rewrite Zdigits2_shiftr by lia. repeat split; lia.
  - eexists _, _. split; [done |]. rewrite shr_record_of_loc_m.
    replace (Z.max e (fexp prec emax (Zdigits2 m + e))) with e by lia.
    rewrite Z.sub_diag, Z.shiftr_0_r. repeat split; lia.
Qed.

Lemma round_nearest_even_bounds (m : Z) (l : location) :
  0 <= m -> m <= round_nearest_even m l <= m + 1.
Proof.
  intros Hm. destruct l as [| []]; simpl; try lia.
  destruct (Z.even m); lia.
Qed.

(** What a rounding of a non-negative mantissa can return: a zero or a
    finite number of the given sign, whose magnitude exceeds that of the
    argument by at most one binade, or an infinity when that is out of
    range.  Never a NaN. *)
Lemma binary_round_aux_spec (s : bool) (m e : Z) (l : location) :
  0 <= m ->
  match binary_round_aux prec emax s m e l with
  | S754_zero s' => s' = s
  | S754_finite s' m' e' =>
      s' = s /\ e' <= Z.max e (Z.max (Zdigits2 m + e - 52) (-1074))
      /\ Zdigits2 (Z.pos m') + e' <= Z.max (Zdigits2 m + e) (-1074) + 1
  | S754_infinity s' =>
      s' = s /\ (1023 < Zdigits2 m + e \/ 971 < e)
  | S754_nan => False
  end.
Proof.
  intros Hm. unfold binary_round_aux.
  destruct (shr_fexp_spec m e l Hm) as (mrs1 & e1 & -> & He1 & Hm1 & Hd1).
  assert (Hm1' : 0 <= shr_m mrs1) by (rewrite Hm1; apply Z.shiftr_nonneg; done).
  pose proof (round_nearest_even_bounds (shr_m mrs1) (loc_of_shr_record mrs1) Hm1') as Hr.
  set (m2 := round_nearest_even (shr_m mrs1) (loc_of_shr_record mrs1)) in *.
  assert (Hm2 : 0 <= m2) by lia.
  destruct (shr_fexp_spec m2 e1 loc_Exact Hm2) as (mrs3 & e3 & -> & He3 & Hm3 & Hd3).
  assert (Hd2 : Zdigits2 m2 <= Zdigits2 (shr_m mrs1) + 1).
  { etrans; [apply (Zdigits2_le m2 (shr_m mrs1 + 1)); lia |].
    by apply Zdigits2_succ. }
  pose proof (Zdigits2_nonneg m) as Hd.
  pose proof (Zdigits2_nonneg (shr_m mrs1)) as Hd1'.
  rewrite fexp_eq in He1, He3.
  assert (Hm3' : 0 <= shr_m mrs3) by (rewrite Hm3; apply Z.shiftr_nonneg; done).
  destruct (shr_m mrs3) as [| m' |] eqn:E; [done | | lia].
  destruct (e3 <=? emax - prec) eqn:Ele.
  - apply Z.leb_le in Ele. unfold emax, prec in Ele. repeat split; lia.
  - apply Z.leb_gt in Ele. unfold emax, prec in Ele. split; [done |]. lia.
Qed.


(** A full mantissa with an exponent in range is its own rounding. *)
Lemma binary_round_aux_canonical (s : bool) (m : positive) (e : Z) :
  Zdigits2 (Z.pos m) = 53 -> -1074 <= e <= 971 ->
  binary_round_aux prec emax s (Z.pos m) e loc_Exact = S754_finite s m e.
Proof.
  intros Hd He. unfold binary_round_aux, shr_fexp.
  rewrite Hd, fexp_eq.
  replace (Z.max (53 + e - 53) (-1074) - e) with 0 by lia.
  cbn [shr shr_record_of_loc shr_m loc_of_shr_record round_nearest_even].
  rewrite Hd, fexp_eq.
  replace (Z.max (53 + e - 53) (-1074) - e) with 0 by lia.
  cbn [shr shr_record_of_loc shr_m].
  destruct (e <=? emax - prec) eqn:E; [done |].
  apply Z.leb_gt in E. unfold emax, prec in E. lia.
Qed.

Lemma iter_xO_pow2 (p k : positive) :
  Z.pos (Pos.iter xO p k) = Z.pos p * 2 ^ Z.pos k.
Proof.
  induction k as [| k IH] using Pos.peano_ind.
  - simpl. lia.
  - rewrite Pos.iter_succ, Pos2Z.inj_succ, Z.pow_succ_r by lia.
    rewrite Pos2Z.inj_xO, IH. lia.
Qed.

(** [float(n)] is exact below [2 ** 53]: the mantissa is [n] shifted up to
    53 digits. *)
Lemma of_int_exact (n : Z) :
  0 < n < 2 ^ 53 ->
  exists (m : positive) (e : Z),
    of_int n = inr (S754_finite false m e)
    /\ Zdigits2 (Z.pos m) = 53 /\ -52 <= e <= 0 /\ Z.pos m = n * 2 ^ (- e).
Proof.
  intros [Hpos Hlt]. destruct n as [| p |]; [lia | | lia].
  pose proof (Zdigits2_log2 p) as Hd.
  assert (Hlog : 0 <= Z.log2 (Z.pos p) < 53).
  { split; [apply Z.log2_nonneg |]. apply Z.log2_lt_pow2; lia. }
  unfold of_int, binary_normalize, binary_round.
  change (Z.pos (digits2_pos p)) with (Zdigits2 (Z.pos p)).
  rewrite Z.add_0_r, fexp_eq.
  replace (Z.max (Zdigits2 (Z.pos p) - 53) (-1074))
    with (Zdigits2 (Z.pos p) - 53) by lia.
  unfold shl_align.
  destruct (Zdigits2 (Z.pos p) - 53 - 0) as [| k | k] eqn:E; [| lia |].
  - rewrite binary_round_aux_canonical by lia.
    exists p, 0. repeat split; lia.
  - assert (Hk : Zdigits2 (Z.pos (Pos.iter xO p k)) = 53).
    { rewrite Zdigits2_log2, iter_xO_pow2, Z.log2_mul_pow2 by lia. lia. }
    rewrite binary_round_aux_canonical by lia.
    exists (Pos.iter xO p k), (Zdigits2 (Z.pos p) - 53).
    repeat split; try lia.
    rewrite iter_xO_pow2. f_equal. f_equal. lia.
Qed.

(** Truncating [float(n)] returns [n]. *)
Lemma to_int_exact (n : Z) (m : positive) (e : Z) :
  e <= 0 -> Z.pos m = n * 2 ^ (- e) ->
  to_int (S754_finite false m e) = inr n.
Proof.
  intros He Hm. unfold to_int. cbn [cond_Zopp]. f_equal.
  rewrite Hm. rewrite <- (Z.opp_involutive e) at 2.
  rewrite Z.shiftl_opp_r.
  rewrite Z.shiftr_div_pow2 by lia. apply Z.div_mul.
  apply Z.pow_nonzero; lia.
Qed.

Lemma iter_pos_iter {A : Type} (f : A -> A) (p : positive) (x : A) :
  SpecFloat.iter_pos f p x = Pos.iter f x p.
Proof.
  revert x. induction p as [p IH | p IH |]; intros x; simpl.
  - by rewrite !IH, !Pos.iter_swap.
  - by rewrite !IH.
  - done.
Qed.

Lemma shr_1_even (z : Z) :
  0 <= z ->
  shr_1 {| shr_m := 2 * z; shr_r := false; shr_s := false |}
  = {| shr_m := z; shr_r := false; shr_s := false |}.
Proof. intros Hz. destruct z; [done | done | lia]. Qed.

(** Shifting out the zeros below a mantissa loses nothing. *)
Lemma iter_pos_shr_exact (k : positive) (z : Z) :
  0 <= z ->
  SpecFloat.iter_pos shr_1 k
    {| shr_m := z * 2 ^ Z.pos k; shr_r := false; shr_s := false |}
  = {| shr_m := z; shr_r := false; shr_s := false |}.
Proof.
  intros Hz. rewrite iter_pos_iter.
  induction k as [| k IH] using Pos.peano_ind.
  - simpl Pos.iter. replace (z * 2 ^ 1) with (2 * z) by lia. by apply shr_1_even.
  - rewrite Pos.iter_succ_r, Pos2Z.inj_succ, Z.pow_succ_r by lia.
    replace (z * (2 * 2 ^ Z.pos k)) with (2 * (z * 2 ^ Z.pos k)) by lia.
    rewrite shr_1_even; [done |]. apply Z.mul_nonneg_nonneg; [done |].
    apply Z.pow_nonneg. lia.
Qed.

(** A full mantissa followed by [k] zeros rounds to the mantissa. *)
Lemma binary_round_aux_shifted (s : bool) (m : positive) (k : positive) (e : Z) :
  Zdigits2 (Z.pos m) = 53 -> -1074 <= e <= 971 ->
  binary_round_aux prec emax s (Z.pos m * 2 ^ Z.pos k) (e - Z.pos k) loc_Exact
  = S754_finite s m e.
Proof.
  intros Hd He.
  assert (HD : Zdigits2 (Z.pos m * 2 ^ Z.pos k) = 53 + Z.pos k).
  { assert (Hpow : 0 < 2 ^ Z.pos k) by (apply Z.pow_pos_nonneg; lia).
    destruct (Z.pos m * 2 ^ Z.pos k) as [| q |] eqn:E; [lia | | lia].
    rewrite Zdigits2_log2, <- E, Z.log2_mul_pow2 by lia.
    rewrite Zdigits2_log2 in Hd. lia. }
  unfold binary_round_aux, shr_fexp.
  rewrite HD, fexp_eq.
  replace (Z.max (53 + Z.pos k + (e - Z.pos k) - 53) (-1074) - (e - Z.pos k))
    with (Z.pos k) by lia.
  cbn [shr shr_record_of_loc]. rewrite iter_pos_shr_exact by lia.
  cbn [shr_m loc_of_shr_record round_nearest_even shr_record_of_loc].
  replace (e - Z.pos k + Z.pos k) with e by lia.
  rewrite Hd, fexp_eq.
  replace (Z.max (53 + e - 53) (-1074) - e) with 0 by lia.
  cbn [shr shr_m].
  destruct (e <=? emax - prec) eqn:E; [done |].
  apply Z.leb_gt in E. unfold emax, prec in E. lia.
Qed.

(** [1.0 * y == y] for a [y] with a full mantissa. *)
Lemma mul_one_l (m : positive) (e : Z) :
  Zdigits2 (Z.pos m) = 53 -> -52 <= e <= 0 ->
  mul (S754_finite false 4503599627370496 (-52)) (S754_finite false m e)
  = S754_finite false m e.
Proof.
  intros Hd He. unfold mul, SFmul. cbn [xorb].
  rewrite Pos2Z.inj_mul.
  change (Z.pos 4503599627370496) with (2 ^ Z.pos 52).
  rewrite Z.mul_comm.
  replace (-52 + e) with (e - Z.pos 52) by lia.
  apply binary_round_aux_shifted; [done | lia].
Qed.


(** Below [2 ** 900] in magnitude, [a / 100] is a float of the sign of
    [a] and of at most twice its magnitude. *)
Lemma truediv_int_100_bounded (a : Z) :
  Z.abs a < 2 ^ 900 ->
  exists x, truediv_int a 100 = inr x /\ bounded_float (a <? 0) 901 848 x.
Proof.
  intros Ha. unfold truediv_int. change (100 =? 0) with false. cbv iota.
  change (100 <? 0) with false. rewrite xorb_false_r.
  destruct (a =? 0) eqn:E0.
  { eexists. split; [done |]. done. }
  apply Z.eqb_neq in E0.
  assert (Hd : Zdigits2 (Z.abs a) = Zdigits2 a) by (destruct a; done).
  assert (Hd1 : 1 <= Zdigits2 a <= 900).
  { rewrite <- Hd. destruct (Z.abs a) as [| p |] eqn:E; [lia | | lia].
    rewrite Zdigits2_log2. pose proof (Z.log2_nonneg (Z.pos p)).
    assert (Z.log2 (Z.pos p) < 900) by (apply Z.log2_lt_pow2; lia). lia. }
  unfold SFdiv_core_binary. change (Z.abs 100) with 100. rewrite Hd.
  change (Zdigits2 100) with 7. rewrite fexp_eq.
  set (e' := Z.min (Z.max (Zdigits2 a + 0 - (7 + 0) - 53) (-1074)) (0 - 0)).
  assert (He' : -1074 <= e' <= 0) by lia.
  set (m' := match 0 - 0 - e' with
             | 0 => Z.abs a
             | Z.pos _ => Z.shiftl (Z.abs a) (0 - 0 - e')
             | Z.neg _ => 0
             end).
  assert (Hm' : 0 <= m' /\ Zdigits2 m' + e' <= Zdigits2 a).
  { subst m'. destruct (0 - 0 - e') as [| p | p] eqn:E; [lia | | lia].
    rewrite <- E. split; [apply Z.shiftl_nonneg; lia |].
    assert (0 < Z.shiftl (Z.abs a) (0 - 0 - e')).
    { rewrite Z.shiftl_mul_pow2 by lia.
      apply Z.mul_pos_pos; [lia | apply Z.pow_pos_nonneg; lia]. }
    destruct (Z.shiftl (Z.abs a) (0 - 0 - e')) as [| q |] eqn:Es; [lia | | lia].
    rewrite Zdigits2_log2, <- Es, Z.log2_shiftl by lia.
    destruct (Z.abs a) as [| r |] eqn:Ea; [lia | | lia].
    rewrite <- Hd, Zdigits2_log2. lia. }
  pose proof (Z_div_mod m' 100 ltac:(lia)) as Hdiv.
  destruct (Z.div_eucl m' 100) as [q r].
  assert (Hq : 0 <= q <= m') by lia.
  pose proof (Zdigits2_le q m' Hq) as Hdq.
  pose proof (binary_round_aux_spec (a <? 0) q e' (new_location 100 r) ltac:(lia)) as Hr.
  destruct (binary_round_aux prec emax (a <? 0) q e' (new_location 100 r))
    as [s' | s' | | s' m e]; [| | done |].
  - eexists. split; [done |]. done.
  - lia.
  - eexists. split; [done |]. cbn [bounded_float]. split; [tauto |]. lia.
Qed.

(** The product of two finite floats of small magnitude is finite. *)
Lemma mul_bounded (sx sy : bool) (dx bx dy by' : Z) (x y : spec_float) :
  bounded_float sx dx bx x -> bounded_float sy dy by' y ->
  dx + dy <= 1023 -> bx + by' <= 971 ->
  bounded_float (xorb sx sy) (Z.max (dx + dy) (-1074) + 1) 971 (mul x y).
Proof.
  intros Hx Hy Hd Hb. unfold mul.
  destruct x as [sx' | | | sx' mx ex]; try done;
    destruct y as [sy' | | | sy' my ey]; try done; cbn [bounded_float] in Hx, Hy.
  - simpl. by subst.
  - simpl. destruct Hy as [-> _]. by subst.
  - simpl. destruct Hx as [-> _]. by subst.
  - destruct Hx as (-> & Hx & Hbx), Hy as (-> & Hy & Hby). unfold SFmul.
    assert (Hmul : Zdigits2 (Z.pos (mx * my)) <= Zdigits2 (Z.pos mx) + Zdigits2 (Z.pos my)).
    { rewrite !Zdigits2_log2, Pos2Z.inj_mul.
      pose proof (Z.log2_mul_above (Z.pos mx) (Z.pos my)). lia. }
    pose proof (Zdigits2_log2 mx). pose proof (Zdigits2_log2 my).
    pose proof (Z.log2_nonneg (Z.pos mx)). pose proof (Z.log2_nonneg (Z.pos my)).
    pose proof (binary_round_aux_spec (xorb sx sy) (Z.pos (mx * my)) (ex + ey)
                  loc_Exact ltac:(lia)) as Hr.
    destruct (binary_round_aux prec emax (xorb sx sy) (Z.pos (mx * my)) (ex + ey) loc_Exact)
      as [s' | s' | | s' m e]; [done | | done |].
    + lia.
    + cbn [bounded_float]. split; [tauto |]. lia.
Qed.

(** [float(n)] for a list length: a zero, or a finite float below
    [2 ** 53]. *)
Lemma of_int_bounded (n : Z) :
  0 <= n < 2 ^ 53 ->
  exists y, of_int n = inr y /\ bounded_float false 53 0 y.
Proof.
  intros Hn. destruct (decide (n = 0)) as [-> | Hne].
  - eexists. split; [done |]. done.
  - destruct (of_int_exact n ltac:(lia)) as (m & e & -> & Hd & He & _).
    eexists. split; [done |]. cbn [bounded_float]. split; [done |]. lia.
Qed.

(** Truncation keeps the sign. *)
Lemma to_int_bounded (s : bool) (d b : Z) (x : spec_float) :
  bounded_float s d b x ->
  exists k, to_int x = inr k /\ (s = false -> 0 <= k).
Proof.
  destruct x as [s' | | | s' m e]; try done; simpl.
  - intros _. exists 0. split; [done | lia].
  - intros [-> _]. eexists. split; [done |]. intros ->. simpl.
    apply Z.shiftl_nonneg. lia.
Qed.

(** The bounds that the number of digits puts on a positive number. *)
Lemma Zdigits2_bounds (p : positive) :
  2 ^ (Zdigits2 (Z.pos p) - 1) <= Z.pos p < 2 ^ Zdigits2 (Z.pos p).
Proof.
  rewrite Zdigits2_log2.
  pose proof (Z.log2_spec (Z.pos p) ltac:(lia)) as Hs.
  replace (Z.log2 (Z.pos p) + 1 - 1) with (Z.log2 (Z.pos p)) by lia.
  replace (Z.log2 (Z.pos p) + 1) with (Z.succ (Z.log2 (Z.pos p))) by lia.
  exact Hs.
Qed.

Lemma Zdigits2_lt_pow2 (m d : Z) : 0 <= d -> 0 <= m < 2 ^ d -> Zdigits2 m <= d.
Proof.
  intros Hd [Hm Hlt]. destruct m as [| p |]; [simpl; lia | | lia].
  rewrite Zdigits2_log2.
  assert (Z.log2 (Z.pos p) < d) by (apply Z.log2_lt_pow2; lia). lia.
Qed.

(** The value of a rounding of an exact positive mantissa, in units of
    the exponent [e1] the magnitude calls for: the mantissa shifted down
    to [e1], or its successor. *)
Lemma binary_round_aux_value (s : bool) (M e0 : Z) :
  0 < M ->
  Z.max e0 (Z.max (Zdigits2 M + e0 - 53) (-1074)) < 971 ->
  exists m'' : Z,
    M / 2 ^ (Z.max e0 (Z.max (Zdigits2 M + e0 - 53) (-1074)) - e0) <= m''
    /\ m'' <= M / 2 ^ (Z.max e0 (Z.max (Zdigits2 M + e0 - 53) (-1074)) - e0) + 1
    /\ match binary_round_aux prec emax s M e0 loc_Exact with
       | S754_zero _ => m'' = 0
       | S754_finite s' m2 e2 =>
           s' = s
           /\ Z.max e0 (Z.max (Zdigits2 M + e0 - 53) (-1074)) <= e2
           /\ Z.pos m2
              * 2 ^ (e2 - Z.max e0 (Z.max (Zdigits2 M + e0 - 53) (-1074)))
              = m''
       | _ => False
       end.
Proof.
  intros HM. set (e1 := Z.max e0 (Z.max (Zdigits2 M + e0 - 53) (-1074))).
  intros He1. unfold binary_round_aux.
  destruct (shr_fexp_spec M e0 loc_Exact ltac:(lia)) as (mrs1 & e1' & -> & He1' & Hm1 & Hd1).
  rewrite fexp_eq in He1'. fold e1 in He1'. subst e1'.
  assert (Hk : 0 <= e1 - e0) by lia.
  rewrite Z.shiftr_div_pow2 in Hm1 by done.
  assert (Hm1' : 0 <= shr_m mrs1).
  { rewrite Hm1. apply Z.div_pos; [lia | apply Z.pow_pos_nonneg; lia]. }
  pose proof (round_nearest_even_bounds (shr_m mrs1) (loc_of_shr_record mrs1) Hm1') as Hr.
  set (m2 := round_nearest_even (shr_m mrs1) (loc_of_shr_record mrs1)) in *.
  exists m2. rewrite <- Hm1. split; [lia |]. split; [lia |].
  (* the shifted mantissa has at most 53 digits *)
  assert (Hd53 : Zdigits2 (shr_m mrs1) <= 53).
  { pose proof (Zdigits2_nonneg M). rewrite Hm1, <- Z.shiftr_div_pow2 by done.
    rewrite Zdigits2_shiftr by lia. lia. }
  assert (Hlt : shr_m mrs1 < 2 ^ 53).
  { destruct (shr_m mrs1) as [| p |] eqn:E; [lia | | lia].
    pose proof (Zdigits2_bounds p) as [_ Hb].
    eapply Z.lt_le_trans; [exact Hb |]. apply Z.pow_le_mono_r; lia. }
  destruct (shr_fexp_spec m2 e1 loc_Exact ltac:(lia)) as (mrs3 & e3 & -> & He3 & Hm3 & _).
  rewrite fexp_eq in He3.
  destruct (decide (m2 = 2 ^ 53)) as [Heq | Hne].
  - (* the carry: one more shift, which is exact *)
    rewrite Heq in He3, Hm3. change (Zdigits2 (2 ^ 53)) with 54 in He3.
    assert (He3' : e3 = e1 + 1) by lia.
    assert (Hm3' : shr_m mrs3 = Z.pos 4503599627370496).
    { rewrite Hm3, He3'. by replace (e1 + 1 - e1) with 1 by lia. }
    rewrite He3', Hm3'.
    destruct (e1 + 1 <=? emax - prec) eqn:Ele.
    + split; [done |]. split; [lia |]. rewrite Heq.
      by replace (e1 + 1 - e1) with 1 by lia.
    + apply Z.leb_gt in Ele. unfold emax, prec in Ele. lia.
  - assert (Hd2 : Zdigits2 m2 <= 53) by (apply Zdigits2_lt_pow2; lia).
    assert (He3' : e3 = e1) by (subst e1; lia).
    assert (Hm3' : shr_m mrs3 = m2).
    { by rewrite Hm3, He3', Z.sub_diag, Z.shiftr_0_r. }
    rewrite He3', Hm3'. destruct m2 as [| p |] eqn:E; [done | | lia].
    destruct (e1 <=? emax - prec) eqn:Ele.
    + split; [done |]. split; [lia |]. rewrite Z.sub_diag. lia.
    + apply Z.leb_gt in Ele. unfold emax, prec in Ele. lia.
Qed.

(** A rounding whose argument reaches [2 ** 1024] is an infinity. *)
Lemma binary_round_aux_overflow (s : bool) (m e : Z) (l : location) :
  0 < m -> 1024 < Zdigits2 m + e ->
  binary_round_aux prec emax s m e l = S754_infinity s.
Proof.
  intros Hm Hbig. unfold binary_round_aux.
  assert (Hpos : forall x, 0 <= x -> 0 < Zdigits2 x -> 0 < x).
  { intros [| p |] Hx Hd; [simpl in Hd |..]; lia. }
  destruct (shr_fexp_spec m e l ltac:(lia)) as (mrs1 & e1 & -> & He1 & Hm1 & _).
  rewrite fexp_eq in He1.
  assert (Hm1' : 0 < shr_m mrs1).
  { apply Hpos; [rewrite Hm1; apply Z.shiftr_nonneg; lia |].
    rewrite Hm1, Zdigits2_shiftr by lia.
    pose proof (Zdigits2_nonneg m).
    assert (0 < Zdigits2 m) by (destruct m; simpl; lia). lia. }
  pose proof (round_nearest_even_bounds (shr_m mrs1) (loc_of_shr_record mrs1)
                ltac:(lia)) as Hr.
  set (m2 := round_nearest_even (shr_m mrs1) (loc_of_shr_record mrs1)) in *.
  destruct (shr_fexp_spec m2 e1 loc_Exact ltac:(lia)) as (mrs3 & e3 & -> & He3 & Hm3 & _).
  rewrite fexp_eq in He3.
  assert (Hm3' : 0 < shr_m mrs3).
  { apply Hpos; [rewrite Hm3; apply Z.shiftr_nonneg; lia |].
    rewrite Hm3, Zdigits2_shiftr by lia.
    assert (0 < Zdigits2 m2) by (destruct m2; simpl; lia). lia. }
  destruct (shr_m mrs3) as [| m' |]; [lia | | lia].
  destruct (e3 <=? emax - prec) eqn:Ele; [| done].
  apply Z.leb_le in Ele. unfold emax, prec in Ele. lia.
Qed.

(** [a / 100] for an [a] of more than 1031 bits: "integer division result
    too large for a float". *)
Lemma truediv_int_100_overflow (a : Z) :
  2 ^ 1031 <= Z.abs a -> truediv_int a 100 = inl OverflowError.
Proof.
  intros Ha. unfold truediv_int. change (100 =? 0) with false. cbv iota.
  assert (E0 : (a =? 0) = false) by (apply Z.eqb_neq; lia). rewrite E0.
  unfold SFdiv_core_binary. change (Z.abs 100) with 100.
  change (Zdigits2 100) with 7. rewrite fexp_eq.
  assert (Hd : 1032 <= Zdigits2 (Z.abs a)).
  { destruct (Z.abs a) as [| p |] eqn:E; [lia | | lia].
    rewrite Zdigits2_log2.
    assert (1031 <= Z.log2 (Z.pos p)) by (apply Z.log2_le_pow2; lia). lia. }
  replace (Z.min (Z.max (Zdigits2 (Z.abs a) + 0 - (7 + 0) - 53) (-1074)) (0 - 0))
    with 0 by lia.
  change (0 - 0 - 0) with 0. cbv iota.
  pose proof (Z_div_mod (Z.abs a) 100 ltac:(lia)) as Hdiv.
  destruct (Z.div_eucl (Z.abs a) 100) as [q r].
  assert (Hq : 2 ^ 1024 <= q).
  { change (2 ^ 1031) with (128 * 2 ^ 1024) in Ha. lia. }
  assert (Hdq : 1025 <= Zdigits2 q).
  { destruct q as [| p |] eqn:E; [lia | | lia].
    rewrite Zdigits2_log2.
    assert (1024 <= Z.log2 (Z.pos p)) by (apply Z.log2_le_pow2; lia). lia. }
  rewrite binary_round_aux_overflow by lia. done.
Qed.

End PyFloatFacts.

(** ** The covered count *)

Section CountFacts.
Import PyFloat PyFloatFacts.

(** For a percentage of fewer than 900 bits and a length below
    [2 ** 53], line 47 raises nothing; the count of a non-negative
    percentage is non-negative. *)
Lemma covered_count_total (P n : Z) :
  Z.abs P < 2 ^ 900 -> 0 <= n < 2 ^ 53 ->
  exists count, covered_count P n = inr count /\ (0 <= P -> 0 <= count).
Proof.
  intros HP Hn. unfold covered_count, mul_int.
  destruct (truediv_int_100_bounded P HP) as (x & -> & Hx).
  destruct (of_int_bounded n Hn) as (y & -> & Hy). cbn [rbind].
  pose proof (mul_bounded _ _ _ _ _ _ _ _ Hx Hy ltac:(lia) ltac:(lia)) as Hxy.
  destruct (to_int_bounded _ _ _ _ Hxy) as (k & -> & Hk).
  exists k. split; [done |]. intros HP0. apply Hk.
  destruct (P <? 0) eqn:E; [apply Z.ltb_lt in E; lia | done].
Qed.

(** [int((100 / 100) * n) == n] *)
Lemma covered_count_100 (n : Z) : 0 <= n < 2 ^ 53 -> covered_count 100 n = inr n.
Proof.
  intros Hn. unfold covered_count, mul_int.
  change (truediv_int 100 100) with
    (@inr exn _ (S754_finite false 4503599627370496 (-52))).
  cbn [rbind]. destruct (decide (n = 0)) as [-> | Hne]; [done |].
  destruct (of_int_exact n ltac:(lia)) as (m & e & -> & Hd & He & Hm).
  cbn [rbind]. rewrite mul_one_l by done. apply to_int_exact; [lia | done].
Qed.

(** [int((0 / 100) * n) == 0] *)
Lemma covered_count_0 (n : Z) : 0 <= n < 2 ^ 53 -> covered_count 0 n = inr 0.
Proof.
  intros Hn. unfold covered_count, mul_int.
  change (truediv_int 0 100) with (@inr exn _ (S754_zero false)). cbn [rbind].
  destruct (of_int_bounded n Hn) as (y & -> & Hy). cbn [rbind].
  destruct y as [s | | | s m e]; try done.
Qed.

(** [int((P / 100) * 0) == 0] *)
Lemma covered_count_nil (P : Z) : Z.abs P < 2 ^ 900 -> covered_count P 0 = inr 0.
Proof.
  intros HP. unfold covered_count, mul_int.
  destruct (truediv_int_100_bounded P HP) as (x & -> & Hx). cbn [rbind].
  change (of_int 0) with (@inr exn _ (S754_zero false)). cbn [rbind].
  destruct x as [s | | | s m e]; try done.
Qed.

(** The quotients [P / 100] for the percentages 1 to 100, each checked
    by evaluation: a double of 53 digits, within half a unit of its last
    place of the exact quotient. *)
Lemma truediv_int_100_table :
  forallb (fun P =>
    match truediv_int P 100 with
    | inr (S754_finite false m e) =>
        (Zdigits2 (Z.pos m) =? 53) && (-59 <=? e) && (e <=? -52)
        && (-50 <=? 100 * Z.pos m - P * 2 ^ (- e))
        && (100 * Z.pos m - P * 2 ^ (- e) <=? 50)
    | _ => false
    end) (Z.of_nat <$> seq 1 100) = true.
Proof. vm_compute. reflexivity. Qed.

Lemma truediv_int_100_percent (P : Z) :
  1 <= P <= 100 ->
  exists (m : positive) (e : Z),
    truediv_int P 100 = inr (S754_finite false m e)
    /\ Zdigits2 (Z.pos m) = 53 /\ -59 <= e <= -52
    /\ -50 <= 100 * Z.pos m - P * 2 ^ (- e) <= 50.
Proof.
  intros HP. pose proof truediv_int_100_table as Ht.
  rewrite forallb_forall in Ht. specialize (Ht P).
  assert (Hin : In P (Z.of_nat <$> seq 1 100)).
  { apply list_elem_of_In, list_elem_of_fmap.
    exists (Z.to_nat P). split; [lia | apply elem_of_seq; lia]. }
  specialize (Ht Hin).
  destruct (truediv_int P 100) as [e | [s | s | | [] m e]]; try discriminate Ht.
  exists m, e. split; [done |].
  repeat (apply andb_prop in Ht as [Ht ?]). lia.
Qed.

(** [int] of a positive float whose value, in units of [2 ** e1], is the
    integer [v]: the quotient of [v] by [2 ** - e1]. *)
Lemma to_int_scaled (m : positive) (e e1 : Z) :
  e1 <= 0 -> e1 <= e ->
  to_int (S754_finite false m e) = inr (Z.pos m * 2 ^ (e - e1) / 2 ^ (- e1)).
Proof.
  intros He1 He. cbn [to_int cond_Zopp]. f_equal.
  replace e with ((e - e1) + e1) at 1 by lia.
  rewrite <- Z.shiftl_shiftl by lia.
  rewrite (Z.shiftl_mul_pow2 _ (e - e1)) by lia.
  rewrite <- (Z.opp_involutive e1) at 2.
  rewrite Z.shiftl_opp_r, Z.shiftr_div_pow2 by lia. done.
Qed.

(** For a percentage from 0 to 100 and a length below [2 ** 44], the
    count of line 47 is the floor of [n * P / 100], except that it can be
    one less when [n * P] is a multiple of 100. *)
Lemma covered_count_accurate (P n : Z) :
  0 <= P <= 100 -> 0 <= n < 2 ^ 44 ->
  exists count,
    covered_count P n = inr count
    /\ n * P / 100 - 1 <= count <= n * P / 100
    /\ ((n * P) mod 100 <> 0 -> count = n * P / 100).
Proof.
  intros HP Hn.
  destruct (decide (P = 0)) as [-> | HP0].
  { exists 0. rewrite covered_count_0 by lia. rewrite Z.mul_0_r. done. }
  destruct (decide (n = 0)) as [-> | Hn0].
  { exists 0. rewrite covered_count_nil by lia. done. }
  destruct (truediv_int_100_percent P ltac:(lia)) as (mq & eq & Hq & Hdq & Heq & Hd).
  destruct (of_int_exact n ltac:(lia)) as (mn & en & Hof & Hdn & Hen & Hmn).
  unfold covered_count, mul_int. rewrite Hq. cbn [rbind]. rewrite Hof. cbn [rbind].
  unfold mul, SFmul. cbn [xorb]. rewrite Pos2Z.inj_mul.
  (* the sizes of the two mantissas *)
  pose proof (Zdigits2_bounds mq) as Hbq. rewrite Hdq in Hbq.
  pose proof (Zdigits2_bounds mn) as Hbn. rewrite Hdn in Hbn.
  change (53 - 1) with 52 in Hbq, Hbn.
  set (Eq := - eq) in *. set (En := - en) in *.
  assert (HEn : 9 <= En).
  { destruct (Z.le_gt_cases 9 En) as [| Hlt]; [done | exfalso].
    assert (2 ^ En <= 2 ^ 8) by (apply Z.pow_le_mono_r; lia).
    assert (Z.pos mn <= n * 2 ^ 8) by (rewrite Hmn; apply Z.mul_le_mono_nonneg_l; lia).
    lia. }
  set (M := Z.pos mq * Z.pos mn).
  assert (HM : 2 ^ 104 <= M < 2 ^ 106).
  { subst M. change (2 ^ 104) with (2 ^ 52 * 2 ^ 52).
    change (2 ^ 106) with (2 ^ 53 * 2 ^ 53). split.
    - apply Z.mul_le_mono_nonneg; lia.
    - apply Z.mul_lt_mono_nonneg; lia. }
  assert (HdM : 105 <= Zdigits2 M <= 106).
  { destruct M as [| pM |] eqn:EM; [lia | | lia].
    pose proof (Zdigits2_bounds pM) as [Hlo Hhi].
    pose proof (Zdigits2_nonneg (Z.pos pM)). split.
    - destruct (Z.le_gt_cases 105 (Zdigits2 (Z.pos pM))) as [| Hlt]; [done | exfalso].
      assert (2 ^ Zdigits2 (Z.pos pM) <= 2 ^ 104) by (apply Z.pow_le_mono_r; lia).
      lia.
    - destruct (Z.le_gt_cases (Zdigits2 (Z.pos pM)) 106) as [| Hlt]; [done | exfalso].
      assert (2 ^ 106 <= 2 ^ (Zdigits2 (Z.pos pM) - 1)) by (apply Z.pow_le_mono_r; lia).
      lia. }
  set (k := Zdigits2 M - 53).
  set (S := Eq + En).
  assert (He1 : Z.max (eq + en) (Z.max (Zdigits2 M + (eq + en) - 53) (-1074)) = k - S)
    by (subst k S Eq En; lia).
  destruct (binary_round_aux_value false M (eq + en) ltac:(lia) ltac:(lia))
    as (m'' & Hlo & Hhi & Hres).
  rewrite He1 in Hlo, Hhi, Hres.
  replace (k - S - (eq + en)) with k in Hlo, Hhi by (subst S Eq En; lia).
  (* the powers of two involved *)
  assert (Hk : 52 <= k <= 53) by (subst k; lia).
  assert (HS : 61 <= S <= 111) by (subst S Eq En; lia).
  assert (H2k : 0 < 2 ^ k <= 2 ^ 53).
  { split; [apply Z.pow_pos_nonneg; lia | apply Z.pow_le_mono_r; lia]. }
  assert (H2S : 2 ^ 61 <= 2 ^ S) by (apply Z.pow_le_mono_r; lia).
  assert (H2T : 0 < 2 ^ (S - k)) by (apply Z.pow_pos_nonneg; lia).
  assert (Hsplit : 2 ^ S = 2 ^ (S - k) * 2 ^ k).
  { rewrite <- Z.pow_add_r by lia. f_equal. lia. }
  assert (HMk : 1 <= M / 2 ^ k).
  { apply Z.div_le_lower_bound; [lia |].
    assert (2 ^ k <= 2 ^ 53) by lia. lia. }
  destruct (binary_round_aux prec emax false M (eq + en) loc_Exact)
    as [s' | | | s' m2 e2]; [lia | done | done |].
  destruct Hres as (-> & He2 & Hv).
  rewrite (to_int_scaled m2 e2 (k - S)) by lia. rewrite Hv.
  replace (- (k - S)) with (S - k) by lia.
  exists (m'' / 2 ^ (S - k)). split; [done |].
  (* the exact product, a hundred times *)
  set (K := n * P / 100). set (r := (n * P) mod 100).
  assert (Hr : 0 <= r < 100) by (apply Z.mod_pos_bound; lia).
  assert (HnP : n * P = 100 * K + r) by (apply Z.div_mod; lia).
  set (d := 100 * Z.pos mq - P * 2 ^ Eq) in *.
  assert (H100M : 100 * M = 100 * (K * 2 ^ S) + r * 2 ^ S + d * Z.pos mn).
  { replace (100 * (K * 2 ^ S) + r * 2 ^ S) with (n * P * 2 ^ S)
      by (rewrite HnP; ring).
    subst M d S. rewrite Z.pow_add_r by lia. rewrite Hmn. ring. }
  assert (Hdmn : - (50 * 2 ^ 53) <= d * Z.pos mn <= 50 * 2 ^ 53).
  { assert (d * Z.pos mn <= 50 * Z.pos mn)
      by (apply Z.mul_le_mono_nonneg_r; lia).
    assert (-50 * Z.pos mn <= d * Z.pos mn)
      by (apply Z.mul_le_mono_nonneg_r; lia).
    lia. }
  assert (HrS : 0 <= r * 2 ^ S <= 99 * 2 ^ S).
  { split; [apply Z.mul_nonneg_nonneg; lia |].
    apply Z.mul_le_mono_nonneg_r; lia. }
  assert (HKS : K * 2 ^ S = 2 ^ k * (K * 2 ^ (S - k))) by (rewrite Hsplit; ring).
  clearbody K r d M. clear HnP Hv He1.
  set (A := 2 ^ S) in *. set (B := 2 ^ k) in *. set (T := 2 ^ (S - k)) in *.
  set (KA := K * A) in *. set (KT := K * T) in *.
  assert (Hup : m'' < (K + 1) * T).
  { assert (M / B < (K + 1) * T - 1); [| lia].
    apply Z.div_lt_upper_bound; [lia |].
    replace (B * ((K + 1) * T - 1)) with (KA + A - B)
      by (subst KA KT; rewrite HKS, Hsplit; ring).
    lia. }
  assert (Hupper : m'' / T <= K).
  { assert (m'' / T < K + 1); [| lia].
    apply Z.div_lt_upper_bound; [lia |]. lia. }
  split; [split |].
  - apply Z.div_le_lower_bound; [lia |].
    etrans; [| exact Hlo]. apply Z.div_le_lower_bound; [lia |].
    replace (B * (T * (K - 1))) with (KA - A)
      by (subst KA KT; rewrite HKS, Hsplit; ring).
    lia.
  - exact Hupper.
  - intros Hr0. apply Z.le_antisymm; [exact Hupper |].
    apply Z.div_le_lower_bound; [lia |].
    etrans; [| exact Hlo]. apply Z.div_le_lower_bound; [lia |].
    replace (B * (T * K)) with KA by (subst KA KT; rewrite HKS; ring).
    assert (1 * A <= r * A) by (apply Z.mul_le_mono_nonneg_r; lia).
    lia.
Qed.

(** The count of a percentage from 0 to 100 lies between 0 and the
    length. *)
Lemma covered_count_percent (P n : Z) :
  0 <= P <= 100 -> 0 <= n < 2 ^ 44 ->
  exists count,
    covered_count P n = inr count
    /\ 0 <= count <= n
    /\ n * P / 100 - 1 <= count <= n * P / 100
    /\ ((n * P) mod 100 <> 0 -> count = n * P / 100).
Proof.
  intros HP Hn.
  destruct (covered_count_accurate P n HP Hn) as (count & Hc & Hb & Hex).
  destruct (covered_count_total P n ltac:(lia) ltac:(lia)) as (count' & Hc' & Hpos).
  rewrite Hc in Hc'. injection Hc' as <-.
  exists count. split; [done |]. split; [| done].
  split; [lia |].
  assert (n * P / 100 <= n); [| lia].
  apply Z.div_le_upper_bound; [lia |].
  rewrite (Z.mul_comm 100). apply Z.mul_le_mono_nonneg_l; lia.
Qed.

(** A larger percentage gives no smaller a count. *)
Lemma covered_count_monotone (P1 P2 n c1 c2 : Z) :
  0 <= P1 <= P2 -> P2 <= 100 -> 0 <= n < 2 ^ 44 ->
  covered_count P1 n = inr c1 -> covered_count P2 n = inr c2 -> c1 <= c2.
Proof.
  intros HP1 HP2 Hn H1 H2.
  destruct (covered_count_accurate P1 n ltac:(lia) Hn) as (c1' & Hc1 & Hb1 & _).
  destruct (covered_count_accurate P2 n ltac:(lia) Hn) as (c2' & Hc2 & Hb2 & Hex2).
  rewrite H1 in Hc1. rewrite H2 in Hc2. simplify_eq.
  assert (Hle : n * P1 <= n * P2) by (apply Z.mul_le_mono_nonneg_l; lia).
  pose proof (Z.div_le_mono (n * P1) (n * P2) 100 ltac:(lia) Hle) as HK.
  destruct (decide ((n * P2) mod 100 = 0)) as [Hr2 | Hr2]; [| specialize (Hex2 Hr2); lia].
  destruct (decide (n * P1 / 100 = n * P2 / 100)) as [HKeq | HKne]; [| lia].
  (* the two products have the same floor, and the larger is a multiple
     of 100: they are equal *)
  pose proof (Z.div_mod (n * P1) 100 ltac:(lia)) as Hd1.
  pose proof (Z.div_mod (n * P2) 100 ltac:(lia)) as Hd2.
  pose proof (Z.mod_pos_bound (n * P1) 100 ltac:(lia)) as Hm1.
  assert (Heq : n * P1 = n * P2) by lia.
  destruct (decide (n = 0)) as [-> | Hn0].
  - rewrite covered_count_nil in H1, H2 by lia. simplify_eq. done.
  - assert (P1 = P2) by (apply (Z.mul_reg_l _ _ n); done).
    subst P2. rewrite H1 in H2. simplify_eq. done.
Qed.

End CountFacts.

(** ** The partition *)

Section CoverageFacts.
Context `{Random}.
Implicit Types (E : list str) (P count : Z) (w : World).

(** When line 47 raises, so does the call, before it touches anything. *)
Lemma calculate_coverage_raises E P w (e : exn) :
  covered_count P (len E) = inl e -> calculate_coverage E P w = (inl e, w).
Proof.
  intros Hc. unfold calculate_coverage, mbind, M_bind, lift. by rewrite Hc.
Qed.

(** When line 47 yields a count, the call returns: the generator is
    seeded with 42, the copy is shuffled, and the shuffled copy is cut at
    the count. *)
Lemma calculate_coverage_returns E P w count :
  covered_count P (len E) = inr count ->
  exists (shuffled : list str) (s : rng_state),
    shuffle E (seed 42) = (inr shuffled, s)
    /\ shuffled ≡ₚ E
    /\ calculate_coverage E P w =
         (inr {| coverage_percentage := P;
                 total_endpoints := len E;
                 covered_endpoints := slice_to shuffled count;
                 uncovered_endpoints := slice_from shuffled count;
                 timestamp := w_utcnow w ++ lit "Z" |},
          set_rng w s).
Proof.
  intros Hc.
  destruct (shuffle_permutation E (seed 42)) as (shuffled & s & Hs & Hperm).
  exists shuffled, s. split; [done |]. split; [done |].
  unfold calculate_coverage, mbind, M_bind, lift. rewrite Hc.
  unfold random_seed, random_shuffle. cbn [w_rng set_rng]. rewrite Hs.
  reflexivity.
Qed.

(** C7.  For every endpoint list and percentage for which line 47
    yields a count, [covered_endpoints] is the slice [[:count]] of the
    shuffle of the list under seed 42 and [uncovered_endpoints] is the slice
    [[count:]] of the same shuffled list: for a non-negative count, its
    first [count] elements and the elements after them, in the order the
    shuffle left them. *)
Theorem calculate_coverage_slices E P w count :
  covered_count P (len E) = inr count ->
  exists (shuffled : list str) (s : rng_state) (r : CoverageData) (w' : World),
    shuffle E (seed 42) = (inr shuffled, s)
    /\ calculate_coverage E P w = (inr r, w')
    /\ covered_endpoints r = slice_to shuffled count
    /\ uncovered_endpoints r = slice_from shuffled count
    /\ (0 <= count ->
        covered_endpoints r = take (Z.to_nat count) shuffled
        /\ uncovered_endpoints r = drop (Z.to_nat count) shuffled).
Proof.
  intros Hc.
  destruct (calculate_coverage_returns E P w count Hc)
    as (shuffled & s & Hs & _ & Hrun).
  eexists shuffled, s, _, _. split; [done |]. split; [exact Hrun |].
  cbn [covered_endpoints uncovered_endpoints]. split; [done |]. split; [done |].
  intros Hk. by rewrite slice_to_take, slice_from_drop.
Qed.

(** C2.  For every endpoint list and percentage for which line 47
    yields a count, the call returns, and the two subsets it returns
    partition the list: together they are a rearrangement of it, their
    lengths add up to its length, an endpoint is in the list exactly when
    it is in one of them, and when the list has no duplicates no endpoint
    is in both. *)
Theorem calculate_coverage_partition E P w count :
  covered_count P (len E) = inr count ->
  exists (r : CoverageData) (w' : World),
    calculate_coverage E P w = (inr r, w')
    /\ covered_endpoints r ++ uncovered_endpoints r ≡ₚ E
    /\ (length (covered_endpoints r) + length (uncovered_endpoints r)
        = length E)%nat
    /\ (forall ep, ep ∈ E <-> ep ∈ covered_endpoints r \/ ep ∈ uncovered_endpoints r)
    /\ (NoDup E ->
        forall ep, ep ∈ covered_endpoints r -> ep ∉ uncovered_endpoints r).
Proof.
  intros Hc.
  destruct (calculate_coverage_returns E P w count Hc)
    as (shuffled & s & _ & Hperm & Hrun).
  eexists _, _. split; [exact Hrun |].
  cbn [covered_endpoints uncovered_endpoints].
  rewrite slice_to_from.
  split; [done |]. split.
  { rewrite <- length_app, slice_to_from. by apply Permutation_length. }
  split.
  { intros ep. rewrite <- Hperm, <- elem_of_app, slice_to_from. done. }
  intros Hnd ep Hin.
  assert (Hnd' : NoDup (slice_to shuffled count ++ slice_from shuffled count)).
  { rewrite slice_to_from. by rewrite Hperm. }
  apply NoDup_app in Hnd' as (_ & Hdisj & _). by apply Hdisj.
Qed.

(** C3.  Two calls on the same endpoint list and percentage, in any two
    surroundings (whatever the generator's state and the clock), end the
    same way: with the same exception, or with the same covered and
    uncovered lists, element for element. *)
Theorem calculate_coverage_deterministic E P (w1 w2 : World) :
  partition_of (calculate_coverage E P w1).1
  = partition_of (calculate_coverage E P w2).1.
Proof.
  destruct (covered_count P (len E)) as [e | count] eqn:Hc.
  - by rewrite !(calculate_coverage_raises E P _ e Hc).
  - destruct (calculate_coverage_returns E P w1 count Hc)
      as (sh1 & s1 & Hs1 & _ & ->).
    destruct (calculate_coverage_returns E P w2 count Hc)
      as (sh2 & s2 & Hs2 & _ & ->).
    rewrite Hs1 in Hs2. by simplify_eq.
Qed.

(** C5.  On the empty list, for every percentage of fewer than 900 bits,
    the call raises nothing and returns a total of 0 and two empty
    subsets. *)
Theorem calculate_coverage_empty P w :
  Z.abs P < 2 ^ 900 ->
  calculate_coverage [] P w =
    (inr {| coverage_percentage := P;
            total_endpoints := 0;
            covered_endpoints := [];
            uncovered_endpoints := [];
            timestamp := w_utcnow w ++ lit "Z" |},
     set_rng w (seed 42)).
Proof.
  intros HP.
  destruct (calculate_coverage_returns [] P w 0 (covered_count_nil P HP))
    as (shuffled & s & Hs & _ & ->).
  rewrite shuffle_nil in Hs. by simplify_eq.
Qed.

(** C6.  For every endpoint list (of a length below [2 ** 53]), at 0
    percent the covered list is empty and the uncovered list is the whole
    shuffled list, and at 100 percent the uncovered list is empty and the
    covered list is the whole shuffled list. *)
Theorem calculate_coverage_extremes E w :
  len E < 2 ^ 53 ->
  exists (shuffled : list str) (s : rng_state),
    shuffle E (seed 42) = (inr shuffled, s)
    /\ (exists r w', calculate_coverage E 0 w = (inr r, w')
                     /\ covered_endpoints r = []
                     /\ uncovered_endpoints r = shuffled)
    /\ (exists r w', calculate_coverage E 100 w = (inr r, w')
                     /\ covered_endpoints r = shuffled
                     /\ uncovered_endpoints r = []).
Proof.
  intros Hlen. assert (Hn : 0 <= len E < 2 ^ 53) by (unfold len in *; lia).
  destruct (calculate_coverage_returns E 0 w 0 (covered_count_0 _ Hn))
    as (shuffled & s & Hs & Hperm & Hrun0).
  destruct (calculate_coverage_returns E 100 w (len E) (covered_count_100 _ Hn))
    as (shuffled' & s' & Hs' & _ & Hrun100).
  rewrite Hs in Hs'. simplify_eq.
  exists shuffled', s'. split; [done |]. split.
  - eexists _, _. split; [exact Hrun0 |].
    cbn [covered_endpoints uncovered_endpoints].
    rewrite slice_to_take, slice_from_drop by lia. done.
  - eexists _, _. split; [exact Hrun100 |].
    cbn [covered_endpoints uncovered_endpoints].
    assert (Hl : Z.to_nat (len E) = length shuffled').
    { unfold len. rewrite Nat2Z.id. symmetry. by apply Permutation_length. }
    rewrite slice_to_take, slice_from_drop by (unfold len; lia).
    rewrite Hl, firstn_all, drop_all. done.
Qed.

(** C1.  Fifty endpoints at 58 percent: the call covers 28 of them,
    one short of [floor(50 * 58 / 100) = 29].  The quotient [58 / 100] is
    the double just below 0.58, its product with 50.0 rounds to the double
    just below 29.0, and [int] truncates it. *)
Theorem calculate_coverage_58_of_50 w :
  exists (r : CoverageData) (w' : World),
    calculate_coverage fifty_endpoints 58 w = (inr r, w')
    /\ len (covered_endpoints r) = 28
    /\ len fifty_endpoints * 58 / 100 = 29.
Proof.
  assert (Hc : covered_count 58 (len fifty_endpoints) = inr 28) by reflexivity.
  destruct (calculate_coverage_returns fifty_endpoints 58 w 28 Hc)
    as (shuffled & s & _ & Hperm & Hrun).
  eexists _, _. split; [exact Hrun |]. split; [| reflexivity].
  cbn [covered_endpoints]. unfold len.
  rewrite slice_to_length, (Permutation_length Hperm). reflexivity.
Qed.

End CoverageFacts.

(** ** The loader and the driver *)

Section DriverFacts.
Context `{Random} `{Yaml} `{Os}.
Implicit Types (w : World) (path text : str).

(** The loop of the loader copies the keys in order. *)
Lemma foldl_append (l acc : list str) :
  foldl (fun endpoints path => endpoints ++ [path]) acc l = acc ++ l.
Proof.
  revert acc. induction l as [| a l IH]; intros acc; simpl.
  - by rewrite app_nil_r.
  - rewrite IH, <- app_assoc. done.
Qed.



(** A loaded document reaches the two method calls untouched. *)
Lemma parse_openapi_yaml_loaded path text (openapi_spec : yaml) w :
  w_files w !! path = Some text -> safe_load text = Document openapi_spec ->
  parse_openapi_yaml path w =
    (rbind (get openapi_spec (lit "paths") (YDict [])) keys, w).
Proof.
  intros Hf Hl. unfold parse_openapi_yaml, mbind, M_bind, isfile, open_safe_load.
  rewrite Hf. rewrite bool_decide_eq_true_2 by eauto.
  cbn [negb]. rewrite Hf, Hl. unfold lift.
  destruct (get openapi_spec (lit "paths") (YDict [])) as [e | paths]; [done |].
  cbn [rbind]. destruct (keys paths) as [e | path_keys]; [done |].
  unfold mret, M_ret. by rewrite foldl_append.
Qed.

(** A mapping without a [paths] key has no endpoints. *)
Lemma parse_openapi_yaml_no_paths path text (items : list (str * yaml)) w :
  w_files w !! path = Some text -> safe_load text = Document (YDict items) ->
  dict_lookup items (lit "paths") = None ->
  parse_openapi_yaml path w = (inr [], w).
Proof.
  intros Hf Hl Hk. rewrite (parse_openapi_yaml_loaded _ _ _ _ Hf Hl).
  unfold get. by rewrite Hk.
Qed.

(** A mapping with a [paths] mapping has its keys for endpoints, in the
    order of the document. *)
Lemma parse_openapi_yaml_paths path text (items paths : list (str * yaml)) w :
  w_files w !! path = Some text -> safe_load text = Document (YDict items) ->
  dict_lookup items (lit "paths") = Some (YDict paths) ->
  parse_openapi_yaml path w = (inr (fst <$> paths), w).
Proof.
  intros Hf Hl Hk. rewrite (parse_openapi_yaml_loaded _ _ _ _ Hf Hl).
  unfold get. by rewrite Hk.
Qed.

(** C4.  A file that exists and loads as [None] (an empty document) has
    no [paths] key, and the loader does not return an empty list for it:
    [openapi_spec.get] raises [AttributeError]. *)
Theorem parse_openapi_yaml_none path text w :
  w_files w !! path = Some text -> safe_load text = Document YNone ->
  parse_openapi_yaml path w = (inl AttributeError, w).
Proof.
  intros Hf Hl. by rewrite (parse_openapi_yaml_loaded _ _ _ _ Hf Hl).
Qed.

(** The loader writes no file, creates no directory and draws no number. *)
Lemma parse_openapi_yaml_frame path w (r : result (list str)) (w' : World) :
  parse_openapi_yaml path w = (r, w') ->
  w_files w' = w_files w /\ w_dirs w' = w_dirs w /\ w_rng w' = w_rng w.
Proof.
  unfold parse_openapi_yaml, mbind, M_bind, isfile, open_safe_load, lift, print.
  destruct (bool_decide (is_Some (w_files w !! path))); cbn [negb].
  - destruct (w_files w !! path) as [text |]; [| intros [= <- <-]; done].
    destruct (safe_load text) as [doc | exc | e].
    + destruct (get doc (lit "paths") (YDict [])) as [e | paths].
      { intros [= <- <-]. done. }
      destruct (keys paths) as [e | ks]; intros [= <- <-]; done.
    + intros [= <- <-]. done.
    + intros [= <- <-]. done.
  - intros [= <- <-]. done.
Qed.

(** C8.  When the loader hands the driver an empty list, the run
    returns normally, its last printed line is the failure notice, and the
    files and directories are those it found: neither report is written. *)
Theorem main_no_endpoints w (w1 : World) :
  parse_openapi_yaml (path_join (w_cwd w) (lit "api_spec.yaml")) w = (inr [], w1) ->
  exists w2 : World,
    main w = (inr tt, w2)
    /\ w_stdout w2 = w_stdout w1
         ++ [[8218; 249; 229] ++ lit " No endpoints found or failed to parse YAML. Exiting."]
    /\ w_files w2 = w_files w
    /\ w_dirs w2 = w_dirs w.
Proof.
  intros Hp. destruct (parse_openapi_yaml_frame _ _ _ _ Hp) as (Hf & Hd & _).
  eexists. split.
  - unfold main, mbind, M_bind, getcwd. rewrite Hp. reflexivity.
  - cbn [set_stdout w_stdout w_files w_dirs]. done.
Qed.

End DriverFacts.

(** ** The HTML document *)

Section HtmlFacts.
Implicit Types (d : CoverageData) (s x y : str).

Lemma occurs_in_refl x : occurs_in x x.
Proof. exists [], []. by rewrite app_nil_r. Qed.

Lemma occurs_in_app_l x y (z : str) : occurs_in x y -> occurs_in x (y ++ z).
Proof. intros (pre & post & ->). exists pre, (post ++ z). by rewrite <- !app_assoc. Qed.

Lemma occurs_in_app_r x y (z : str) : occurs_in x y -> occurs_in x (z ++ y).
Proof. intros (pre & post & ->). exists (z ++ pre), post. by rewrite <- !app_assoc. Qed.

Lemma occurs_in_concat (f : str -> str) (l : list str) (ep : str) :
  ep ∈ l -> occurs_in (f ep) (concat (f <$> l)).
Proof.
  intros (l1 & l2 & ->)%list_elem_of_split.
  rewrite fmap_app, concat_app. cbn [fmap list_fmap concat].
  apply occurs_in_app_r, occurs_in_app_l, occurs_in_refl.
Qed.

(** The endpoints reach the page through the two lists only. *)
Lemma html_page_ext (f g : str -> str) d :
  (forall ep, ep ∈ covered_endpoints d ++ uncovered_endpoints d -> f ep = g ep) ->
  html_page f d = html_page g d.
Proof.
  intros Hfg. unfold html_page.
  rewrite (list_fmap_ext
             (fun ep => lit "<li class=" ++ dq ++ lit "covered" ++ dq ++ lit ">"
                        ++ f ep ++ lit "</li>")
             (fun ep => lit "<li class=" ++ dq ++ lit "covered" ++ dq ++ lit ">"
                        ++ g ep ++ lit "</li>")
             (covered_endpoints d)).
  2:{ intros i ep Hi. rewrite Hfg; [done |].
      apply elem_of_app. left. by eapply list_elem_of_lookup_2. }
  rewrite (list_fmap_ext
             (fun ep => lit "<li class=" ++ dq ++ lit "uncovered" ++ dq ++ lit ">"
                        ++ f ep ++ lit "</li>")
             (fun ep => lit "<li class=" ++ dq ++ lit "uncovered" ++ dq ++ lit ">"
                        ++ g ep ++ lit "</li>")
             (uncovered_endpoints d)).
  2:{ intros i ep Hi. rewrite Hfg; [done |].
      apply elem_of_app. right. by eapply list_elem_of_lookup_2. }
  reflexivity.
Qed.

(** Escaping leaves a string without special characters as it is. *)
Lemma html_escape_plain s :
  Forall (fun c => html_special c = false) s -> html_escape s = s.
Proof.
  unfold html_escape. induction 1 as [| c s Hc _ IH]; [done |].
  cbn [fmap list_fmap concat]. fold (html_escape_char <$> s). rewrite IH.
  unfold html_special in Hc. unfold html_escape_char.
  destruct (c =? 38); [done |]. destruct (c =? 60); [done |].
  destruct (c =? 62); [done |]. destruct (c =? 34); [done |].
  destruct (c =? 39); done.
Qed.

(** Walk down a concatenation to the joined items that hold the
    endpoint of the goal. *)
Ltac occurs_search :=
  lazymatch goal with
  | |- occurs_in (list_item ?class _) (concat (_ <$> _) ++ _) =>
      first [ apply occurs_in_app_l;
              by apply (occurs_in_concat (list_item class))
            | apply occurs_in_app_r; occurs_search ]
  | |- occurs_in _ (_ ++ _) => apply occurs_in_app_r; occurs_search
  end.

(** An endpoint is written into the page as it is, between the tags of
    its list item. *)
Lemma html_content_covered_item d (ep : str) :
  ep ∈ covered_endpoints d ->
  occurs_in (list_item (lit "covered") ep) (html_content d).
Proof.
  intros Hin. unfold html_content, html_page. occurs_search.
Qed.

Lemma html_content_uncovered_item d (ep : str) :
  ep ∈ uncovered_endpoints d ->
  occurs_in (list_item (lit "uncovered") ep) (html_content d).
Proof.
  intros Hin. unfold html_content, html_page. occurs_search.
Qed.

(** C10, as the code has it.  Every endpoint identifier is written into
    the page as it is, between the tags of its list item; and when no
    identifier contains one of the five characters [&], [<], [>], the
    double quote and the apostrophe, the page is the page with every
    identifier escaped. *)
Theorem html_content_verbatim d :
  (forall ep, ep ∈ covered_endpoints d ->
     occurs_in (list_item (lit "covered") ep) (html_content d))
  /\ (forall ep, ep ∈ uncovered_endpoints d ->
        occurs_in (list_item (lit "uncovered") ep) (html_content d))
  /\ (Forall (Forall (fun c => html_special c = false))
        (covered_endpoints d ++ uncovered_endpoints d) ->
      html_content d = html_content_escaped d).
Proof.
  split; [apply html_content_covered_item |].
  split; [apply html_content_uncovered_item |].
  intros Hplain. unfold html_content, html_content_escaped.
  apply html_page_ext. intros ep Hin.
  rewrite Forall_forall in Hplain. symmetry. by apply html_escape_plain, Hplain.
Qed.

(** C10, as stated, fails: the page for an endpoint that is markup is not
    the page with the endpoint escaped. *)
Lemma html_content_not_escaped :
  ~ (forall d, html_content d = html_content_escaped d).
Proof.
  intros Hall. specialize (Hall markup_data).
  apply (f_equal length) in Hall. vm_compute in Hall. discriminate.
Qed.

End HtmlFacts.

(** ** The JSON report, written and read back *)

Section JsonFacts.
Implicit Types (s rest chunks : str) (c : Z).

Lemma skip_ws_newline_indent (indent level : nat) rest :
  skip_ws rest = rest -> skip_ws (newline_indent indent level ++ rest) = rest.
Proof.
  intros Hrest. unfold newline_indent. cbn [app skip_ws is_ws Z.eqb orb].
  change ((10 =? 32) || (10 =? 9) || (10 =? 10) || (10 =? 13)) with true. cbv iota.
  induction (indent * level)%nat as [| n IH]; [done |].
  cbn [replicate app skip_ws]. change (is_ws 32) with true. cbv iota. exact IH.
Qed.

(** *** Hexadecimal escapes *)

Lemma hex_value_digit (d : Z) : 0 <= d < 16 -> hex_value (hex_digit d) = Some d.
Proof.
  intros Hd.
  assert (d = 0 \/ d = 1 \/ d = 2 \/ d = 3 \/ d = 4 \/ d = 5 \/ d = 6 \/ d = 7
          \/ d = 8 \/ d = 9 \/ d = 10 \/ d = 11 \/ d = 12 \/ d = 13 \/ d = 14
          \/ d = 15) as Hcases by lia.
  repeat (destruct Hcases as [-> | Hcases]; [reflexivity |]). by subst.
Qed.

Lemma u_escape_app (n : Z) rest :
  u_escape n ++ rest
  = 92 :: 117 :: hex_digit (Z.shiftr n 12 mod 16) :: hex_digit (Z.shiftr n 8 mod 16)
      :: hex_digit (Z.shiftr n 4 mod 16) :: hex_digit (n mod 16) :: rest.
Proof. reflexivity. Qed.

(** The four digits of an escape are read back as the number escaped. *)
Lemma decode_u_escape (n : Z) rest :
  0 <= n < 65536 ->
  decode_uXXXX (hex_digit (Z.shiftr n 12 mod 16) :: hex_digit (Z.shiftr n 8 mod 16)
                  :: hex_digit (Z.shiftr n 4 mod 16) :: hex_digit (n mod 16) :: rest)
  = Decoded n.
Proof.
  intros Hn. unfold decode_uXXXX.
  rewrite !Z.shiftr_div_pow2 by lia.
  rewrite !hex_value_digit by (apply Z.mod_pos_bound; lia).
  f_equal. change (2 ^ 12) with 4096. change (2 ^ 8) with 256.
  change (2 ^ 4) with 16.
  replace (n / 4096) with (n / 16 / 16 / 16) by (rewrite !Z.div_div by lia; reflexivity).
  replace (n / 256) with (n / 16 / 16) by (rewrite !Z.div_div by lia; reflexivity).
  assert (0 <= n / 16 / 16 / 16 < 16).
  { split; [repeat apply Z.div_pos; lia |].
    repeat (apply Z.div_lt_upper_bound; [lia |]). lia. }
  rewrite (Z.mod_small (n / 16 / 16 / 16)) by lia.
  pose proof (Z.div_mod n 16 ltac:(lia)).
  pose proof (Z.div_mod (n / 16) 16 ltac:(lia)).
  pose proof (Z.div_mod (n / 16 / 16) 16 ltac:(lia)).
  lia.
Qed.

(** *** Surrogate pairs *)

Lemma lor_shifted (h x : Z) :
  0 <= h -> 0 <= x < 1024 -> Z.lor (h * 1024) x = h * 1024 + x.
Proof.
  intros Hh Hx. pose proof (Z.add_lor_land (h * 1024) x) as Hadd.
  assert (Hland : Z.land (h * 1024) x = 0).
  { replace x with (Z.land x (Z.ones 10)).
    2:{ rewrite Z.land_ones by lia. apply Z.mod_small. change (2 ^ 10) with 1024. lia. }
    rewrite (Z.land_comm x), Z.land_assoc, Z.land_ones by lia.
    change (2 ^ 10) with 1024. rewrite Z.mod_mul by lia. apply Z.land_0_l. }
  lia.
Qed.

(** The two halves written for a code point above the basic plane. *)
Lemma surrogate_halves c :
  65536 <= c < 1114112 ->
  let n := c - 65536 in
  let s1 := Z.lor 55296 (Z.land (Z.shiftr n 10) 1023) in
  let s2 := Z.lor 56320 (Z.land n 1023) in
  is_high s1 = true /\ is_low s2 = true
  /\ 65536 + Z.lor (Z.shiftl (s1 - 55296) 10) (s2 - 56320) = c.
Proof.
  intros Hc n s1 s2.
  assert (Hn : 0 <= n < 1048576) by (subst n; lia).
  pose proof (Z.div_mod n 1024 ltac:(lia)) as Hdm.
  pose proof (Z.mod_pos_bound n 1024 ltac:(lia)) as Hmod.
  assert (H1 : s1 = 55296 + n / 1024).
  { subst s1. change 1023 with (Z.ones 10). rewrite Z.land_ones by lia.
    rewrite Z.shiftr_div_pow2 by lia. change (2 ^ 10) with 1024.
    rewrite Z.mod_small by lia.
    change 55296 with (54 * 1024). apply lor_shifted; lia. }
  assert (H2 : s2 = 56320 + n mod 1024).
  { subst s2. change 1023 with (Z.ones 10). rewrite Z.land_ones by lia.
    change (2 ^ 10) with 1024. change 56320 with (55 * 1024).
    apply lor_shifted; [lia | apply Z.mod_pos_bound; lia]. }
  rewrite H1, H2. unfold is_high, is_low.
  split; [apply andb_true_intro; split; lia |].
  split; [apply andb_true_intro; split; lia |].
  replace (55296 + n / 1024 - 55296) with (n / 1024) by lia.
  replace (56320 + n mod 1024 - 56320) with (n mod 1024) by lia.
  rewrite Z.shiftl_mul_pow2 by lia. change (2 ^ 10) with 1024.
  rewrite lor_shifted by lia. lia.
Qed.

(** *** Strings *)

(** One turn of the loop of [scanstring] reads back one escaped
    character, unless it is a high surrogate and the text goes on with the
    escape of a low one. *)
Lemma scanstring_char c (T : str) (fuel : nat) chunks :
  code_point c = true ->
  (is_high c = true -> no_low_escape T) ->
  scanstring (S fuel) (escape_char c ++ T) chunks = scanstring fuel T (chunks ++ [c]).
Proof.
  intros Hc Hlook. unfold code_point in Hc.
  apply andb_prop in Hc as [Hc0 Hc1]. apply Z.leb_le in Hc0. apply Z.ltb_lt in Hc1.
  unfold escape_char. destruct (escape_ascii c) eqn:E.
  - unfold replace.
    destruct (c =? 92) eqn:E1; [apply Z.eqb_eq in E1; subst; reflexivity |].
    destruct (c =? 34) eqn:E2; [apply Z.eqb_eq in E2; subst; reflexivity |].
    destruct (c =? 8) eqn:E3; [apply Z.eqb_eq in E3; subst; reflexivity |].
    destruct (c =? 12) eqn:E4; [apply Z.eqb_eq in E4; subst; reflexivity |].
    destruct (c =? 10) eqn:E5; [apply Z.eqb_eq in E5; subst; reflexivity |].
    destruct (c =? 13) eqn:E6; [apply Z.eqb_eq in E6; subst; reflexivity |].
    destruct (c =? 9) eqn:E7; [apply Z.eqb_eq in E7; subst; reflexivity |].
    destruct (c <? 65536) eqn:E8.
    + apply Z.ltb_lt in E8. rewrite u_escape_app.
      cbn [scanstring]. change (92 =? 34) with false. change (92 =? 92) with true.
      change (117 =? 117) with true. cbv iota.
      rewrite decode_u_escape by lia. cbn [obind drop]. rewrite !drop_0.
      destruct (is_high c) eqn:Eh; [| reflexivity].
      destruct (starts_with_u T) eqn:Eu; [| reflexivity].
      destruct (Hlook eq_refl) as [Hno | (v & Hv & Hlow)]; [congruence |].
      cbn [andb]. rewrite Hv. cbn [obind]. by rewrite Hlow.
    + apply Z.ltb_ge in E8.
      destruct (surrogate_halves c ltac:(lia)) as (Hhigh & Hlow & Hmerge).
      set (s1 := Z.lor 55296 (Z.land (Z.shiftr (c - 65536) 10) 1023)) in *.
      set (s2 := Z.lor 56320 (Z.land (c - 65536) 1023)) in *.
      assert (Hs1 : 0 <= s1 < 65536).
      { unfold is_high in Hhigh. apply andb_prop in Hhigh as [H1 H2].
        apply Z.leb_le in H1, H2. lia. }
      assert (Hs2 : 0 <= s2 < 65536).
      { unfold is_low in Hlow. apply andb_prop in Hlow as [H1 H2].
        apply Z.leb_le in H1, H2. lia. }
      rewrite <- app_assoc, u_escape_app.
      cbn [scanstring]. change (92 =? 34) with false. change (92 =? 92) with true.
      change (117 =? 117) with true. cbv iota.
      rewrite decode_u_escape by lia. cbn [obind drop]. rewrite !drop_0.
      rewrite Hhigh, u_escape_app. cbn [starts_with_u andb].
      change (92 =? 92) with true. change (117 =? 117) with true. cbn [andb drop].
      rewrite !drop_0.
      rewrite decode_u_escape by lia. cbn [obind]. rewrite Hlow, Hmerge. reflexivity.
  - unfold escape_ascii in E.
    apply orb_false_elim in E as [E Er]. apply orb_false_elim in E as [E92 E34].
    apply negb_false_iff, andb_prop in Er as [E32 E126].
    cbn [app scanstring]. rewrite E34, E92.
    apply Z.leb_le in E32. destruct (c <? 32) eqn:El; [apply Z.ltb_lt in El; lia |].
    reflexivity.
Qed.

(** What follows a character in an escaped string is not the escape of
    a low surrogate, unless the next character is one. *)
Lemma no_low_escape_body s rest :
  forallb code_point s = true ->
  match s with c' :: _ => is_low c' | [] => false end = false ->
  no_low_escape (concat (escape_char <$> s) ++ 34 :: rest).
Proof.
  intros Hcp Hnext. destruct s as [| c s']; [left; by destruct rest |].
  cbn [forallb] in Hcp. apply andb_prop in Hcp as [Hc _].
  unfold code_point in Hc. apply andb_prop in Hc as [Hc0 Hc1].
  apply Z.leb_le in Hc0. apply Z.ltb_lt in Hc1.
  cbn [fmap list_fmap concat]. rewrite <- app_assoc.
  unfold escape_char at 1. destruct (escape_ascii c) eqn:E.
  - unfold replace.
    destruct (c =? 92) eqn:E1; [by left |].
    destruct (c =? 34) eqn:E2; [by left |].
    destruct (c =? 8) eqn:E3; [by left |].
    destruct (c =? 12) eqn:E4; [by left |].
    destruct (c =? 10) eqn:E5; [by left |].
    destruct (c =? 13) eqn:E6; [by left |].
    destruct (c =? 9) eqn:E7; [by left |].
    destruct (c <? 65536) eqn:E8.
    + apply Z.ltb_lt in E8. right. exists c. rewrite u_escape_app. cbn [drop].
      rewrite ?drop_0.
      split; [apply decode_u_escape; lia | done].
    + apply Z.ltb_ge in E8.
      destruct (surrogate_halves c ltac:(lia)) as (Hhigh & _ & _).
      set (s1 := Z.lor 55296 (Z.land (Z.shiftr (c - 65536) 10) 1023)) in *.
      right. exists s1. rewrite <- app_assoc, u_escape_app. cbn [drop].
      rewrite ?drop_0.
      unfold is_high in Hhigh. apply andb_prop in Hhigh as [H1 H2].
      apply Z.leb_le in H1, H2.
      split; [apply decode_u_escape; lia |].
      unfold is_low. apply andb_false_intro1. apply Z.leb_gt. lia.
  - left. unfold escape_ascii in E.
    apply orb_false_elim in E as [E _]. apply orb_false_elim in E as [E92 _].
    cbn [app starts_with_u]. destruct (concat (escape_char <$> s') ++ 34 :: rest);
      [done |]. by rewrite E92.
Qed.

(** [scanstring] reads back what [encode_basestring_ascii] wrote between
    the quotes. *)
Lemma scanstring_body s : forall (fuel : nat) chunks rest,
  json_safe s = true ->
  (length (concat (escape_char <$> s)) < fuel)%nat ->
  scanstring fuel (concat (escape_char <$> s) ++ 34 :: rest) chunks
  = Decoded (chunks ++ s, rest).
Proof.
  induction s as [| c s IH]; intros fuel chunks rest Hsafe Hfuel.
  - destruct fuel as [| fuel]; [simpl in Hfuel; lia |].
    cbn. by rewrite app_nil_r.
  - unfold json_safe in Hsafe. apply andb_prop in Hsafe as [Hcp Hns].
    cbn [forallb] in Hcp. apply andb_prop in Hcp as [Hc Hcp].
    cbn [no_surrogate_pair] in Hns. apply andb_prop in Hns as [Hpair Hns].
    cbn [fmap list_fmap concat] in *. rewrite length_app in Hfuel.
    destruct fuel as [| fuel]; [lia |].
    rewrite <- app_assoc, scanstring_char; [| done |].
    + rewrite IH.
      * by rewrite <- app_assoc.
      * unfold json_safe. by rewrite Hcp, Hns.
      * assert (0 < length (escape_char c))%nat; [| lia].
        unfold escape_char, replace, u_escape.
        repeat (case_match; cbn [length app]; try lia).
    + intros Hhigh. apply no_low_escape_body; [done |].
      rewrite Hhigh in Hpair. cbn [andb] in Hpair. by apply negb_true_iff in Hpair.
Qed.

(** A string value is read back. *)
Lemma scan_once_string s (fuel : nat) rest :
  json_safe s = true ->
  scan_once (S fuel) (encode_basestring_ascii s ++ rest) = Decoded (JStr s, rest).
Proof.
  intros Hsafe. unfold encode_basestring_ascii, dq.
  cbn [app scan_once]. change (34 =? 34) with true. cbv iota.
  rewrite <- app_assoc. cbn [app].
  rewrite scanstring_body; [done | done |].
  rewrite length_app. cbn [length]. lia.
Qed.

(** *** Integers *)

Lemma is_digit_digit (d : Z) : 0 <= d < 10 -> is_digit (48 + d) = true.
Proof. intros Hd. unfold is_digit. apply andb_true_intro. split; lia. Qed.

(** The digits of a positive number start with a digit from 1 to 9. *)
Lemma digits_of_head (fuel : nat) : forall n : Z,
  1 <= n < 2 ^ Z.of_nat fuel ->
  exists c (tail : str), digits_of fuel n = c :: tail /\ 49 <= c <= 57.
Proof.
  induction fuel as [| fuel IH]; intros n Hn.
  - change (2 ^ Z.of_nat 0) with 1 in Hn. lia.
  - cbn [digits_of]. destruct (n <? 10) eqn:E.
    + apply Z.ltb_lt in E. exists (48 + n), []. split; [done | lia].
    + apply Z.ltb_ge in E. rewrite Nat2Z.inj_succ, Z.pow_succ_r in Hn by lia.
      pose proof (Z.div_mod n 10 ltac:(lia)).
      pose proof (Z.mod_pos_bound n 10 ltac:(lia)).
      destruct (IH (n / 10)) as (c & tail & -> & Hc); [lia |].
      exists c, (tail ++ [48 + n mod 10]). split; [done | lia].
Qed.

(** Reading the digits of a number adds the number up. *)
Lemma read_digits_digits_of (fuel : nat) : forall (n : Z) rest,
  0 <= n < 2 ^ Z.of_nat fuel ->
  read_digits (digits_of fuel n ++ rest) 0 = read_digits rest n.
Proof.
  induction fuel as [| fuel IH]; intros n rest Hn.
  - change (2 ^ Z.of_nat 0) with 1 in Hn. by replace n with 0 by lia.
  - cbn [digits_of]. destruct (n <? 10) eqn:E.
    + apply Z.ltb_lt in E. cbn [app read_digits].
      rewrite is_digit_digit by lia. f_equal. lia.
    + apply Z.ltb_ge in E. rewrite Nat2Z.inj_succ, Z.pow_succ_r in Hn by lia.
      pose proof (Z.div_mod n 10 ltac:(lia)).
      pose proof (Z.mod_pos_bound n 10 ltac:(lia)).
      rewrite <- app_assoc, IH by lia. cbn [app read_digits].
      rewrite is_digit_digit by lia. f_equal. lia.
Qed.

Lemma log2_fuel (n : Z) : 0 <= n -> n < 2 ^ Z.of_nat (S (Z.to_nat (Z.log2 n))).
Proof.
  intros Hn. rewrite Nat2Z.inj_succ, Z2Nat.id by apply Z.log2_nonneg.
  destruct (decide (n = 0)) as [-> | Hne]; [done |].
  apply Z.log2_spec. lia.
Qed.

(** The pattern of the scanner matches a written number whole, and
    [int] gives the number back. *)
Lemma match_integer_str_of_int (n : Z) rest :
  match rest with c :: _ => is_digit c | [] => false end = false ->
  match_integer (str_of_int n ++ rest) = Some (n, rest).
Proof.
  intros Hrest.
  assert (Hread : forall m : Z, read_digits rest m = (m, rest)).
  { intros m. destruct rest as [| c r]; [done |]. cbn [read_digits]. by rewrite Hrest. }
  assert (Hpos : forall m : Z, 1 <= m ->
            match_integer (digits_of (S (Z.to_nat (Z.log2 m))) m ++ rest) = Some (m, rest)
            /\ match_integer (45 :: digits_of (S (Z.to_nat (Z.log2 m))) m ++ rest)
               = Some (- m, rest)).
  { intros m Hm. pose proof (log2_fuel m ltac:(lia)) as Hf.
    pose proof (read_digits_digits_of (S (Z.to_nat (Z.log2 m))) m rest ltac:(lia)) as Hrd.
    destruct (digits_of_head (S (Z.to_nat (Z.log2 m))) m ltac:(lia)) as (c & tail & Hd & Hc).
    rewrite Hd in *. cbn [app read_digits] in Hrd.
    assert (Hdig : is_digit c = true).
    { unfold is_digit. apply andb_true_intro. split; lia. }
    rewrite Hdig, Hread in Hrd. replace (0 * 10 + (c - 48)) with (c - 48) in Hrd by lia.
    destruct (c =? 48) eqn:E48; [apply Z.eqb_eq in E48; lia |].
    assert (E : (49 <=? c) && (c <=? 57) = true) by (apply andb_true_intro; split; lia).
    unfold match_integer. cbn [app].
    destruct (c =? 45) eqn:E45; [apply Z.eqb_eq in E45; lia |].
    change (45 =? 45) with true. cbv iota. rewrite E48, E, Hrd. done. }
  unfold str_of_int. destruct (n <? 0) eqn:E.
  - apply Z.ltb_lt in E. destruct (Hpos (- n) ltac:(lia)) as [_ H].
    cbn [app]. rewrite H. do 2 f_equal. lia.
  - apply Z.ltb_ge in E. destruct (decide (n = 0)) as [-> | Hne]; [done |].
    by destruct (Hpos n ltac:(lia)) as [H _].
Qed.

Lemma startswith_head_ne (p : Z) (prefix : str) c s :
  p <> c -> startswith (p :: prefix) (c :: s) = false.
Proof.
  intros Hne. cbn [startswith].
  destruct (p =? c) eqn:E; [apply Z.eqb_eq in E; done | done].
Qed.

(** An integer value is read back, before a comma or a line break. *)
Lemma scan_once_int (n : Z) (fuel : nat) (c0 : Z) rest :
  int_too_long n = false ->
  c0 = 44 \/ c0 = 10 ->
  scan_once (S fuel) (str_of_int n ++ c0 :: rest) = Decoded (JInt n, c0 :: rest).
Proof.
  intros Hlim Hc0.
  assert (Hm : match_integer (str_of_int n ++ c0 :: rest) = Some (n, c0 :: rest)).
  { apply match_integer_str_of_int. by destruct Hc0 as [-> | ->]. }
  assert (Hhead : exists c (tail : str),
            str_of_int n ++ c0 :: rest = c :: tail /\ (c = 45 \/ 48 <= c <= 57)).
  { unfold str_of_int. destruct (n <? 0) eqn:E.
    - eexists _, _. split; [reflexivity | by left].
    - apply Z.ltb_ge in E. destruct (decide (n = 0)) as [-> | Hne].
      + eexists _, _. split; [reflexivity | right; lia].
      + destruct (digits_of_head (S (Z.to_nat (Z.log2 n))) n
                    ltac:(pose proof (log2_fuel n); lia))
          as (c & tail & -> & Hc).
        eexists _, _. split; [reflexivity | right; lia]. }
  destruct Hhead as (c & tail & Heq & Hc). rewrite Heq in *.
  cbn [scan_once].
  destruct (c =? 34) eqn:E1; [apply Z.eqb_eq in E1; lia |].
  destruct (c =? 123) eqn:E2; [apply Z.eqb_eq in E2; lia |].
  destruct (c =? 91) eqn:E3; [apply Z.eqb_eq in E3; lia |].
  assert (Hn : startswith (lit "null") (c :: tail) = false).
  { apply (startswith_head_ne 110); lia. }
  assert (Ht : startswith (lit "true") (c :: tail) = false).
  { apply (startswith_head_ne 116); lia. }
  assert (Hf : startswith (lit "false") (c :: tail) = false).
  { apply (startswith_head_ne 102); lia. }
  rewrite Hn, Ht, Hf, Hm.
  assert (Hfe : frac_or_exp (c0 :: rest) = false).
  { destruct Hc0 as [-> | ->]; by destruct rest. }
  by rewrite Hfe, Hlim.
Qed.

(** *** Arrays of strings *)

Lemma join_cons_ne (sep' c : str) (r : list str) :
  r <> [] -> join sep' (c :: r) = c ++ sep' ++ join sep' r.
Proof. by destruct r. Qed.

Lemma join_strings_head (sep' : str) (e : str) (l : list str) (X : str) :
  exists T : str,
    join sep' (encode_basestring_ascii <$> (e :: l)) ++ X = 34 :: T.
Proof.
  destruct l as [| e2 l]; eexists; reflexivity.
Qed.

Lemma skip_ws_quote (T : str) : skip_ws (34 :: T) = 34 :: T.
Proof. reflexivity. Qed.

(** The loop of [JSONArray] reads back the strings of a written array. *)
Lemma array_loop_strings (indent level : nat) (l : list str) :
  forall (fuel : nat) (values : list json) rest,
  l <> [] -> forallb json_safe l = true -> (length l < fuel)%nat ->
  array_loop fuel
    (join (44 :: newline_indent indent (S level)) (encode_basestring_ascii <$> l)
     ++ newline_indent indent level ++ 93 :: rest) values
  = Decoded (JList (values ++ (JStr <$> l)), rest).
Proof.
  induction l as [| e l IH]; intros fuel values rest Hne Hsafe Hfuel; [done |].
  cbn [forallb] in Hsafe. apply andb_prop in Hsafe as [He Hl].
  cbn [length] in Hfuel.
  destruct fuel as [| fuel]; [lia |]. destruct fuel as [| fuel]; [lia |].
  destruct l as [| e2 l].
  - cbn [fmap list_fmap join array_loop].
    rewrite scan_once_string by done. cbn [obind fst snd].
    rewrite skip_ws_newline_indent by reflexivity. reflexivity.
  - change (encode_basestring_ascii <$> e :: e2 :: l)
      with (encode_basestring_ascii e :: (encode_basestring_ascii <$> e2 :: l)).
    destruct (join_strings_head (44 :: newline_indent indent (S level)) e2 l
                (newline_indent indent level ++ 93 :: rest)) as (T & HT).
    rewrite join_cons_ne by done.
    rewrite <- !app_assoc. cbn [array_loop].
    rewrite scan_once_string by done. cbn [obind fst snd app skip_ws].
    change (is_ws 44) with false. cbv iota.
    rewrite skip_ws_newline_indent by (rewrite HT; reflexivity).
    specialize (IH (S fuel) (values ++ [JStr e]) rest ltac:(done) Hl
                  ltac:(cbn [length] in *; lia)).
    rewrite <- app_assoc in IH. exact IH.
Qed.

Lemma fmap_iterencode_strings (indent level : nat) (l : list str) :
  (fun value => iterencode indent value level) <$> (JStr <$> l)
  = encode_basestring_ascii <$> l.
Proof. rewrite <- list_fmap_compose. by apply list_fmap_ext. Qed.

(** An array of strings is read back. *)
Lemma reads_back_strings (indent level : nat) (l : list str) :
  forallb json_safe l = true ->
  reads_back indent level (S (length l)) (JList (JStr <$> l)).
Proof.
  intros Hsafe. split.
  - intros fuel c0 rest Hfuel Hc0.
    destruct fuel as [| fuel]; [lia |].
    destruct l as [| e l].
    + reflexivity.
    + change (JStr <$> e :: l) with (JStr e :: (JStr <$> l)).
      cbn [iterencode]. change (JStr e :: (JStr <$> l)) with (JStr <$> e :: l).
      rewrite fmap_iterencode_strings.
      destruct (join_strings_head (lit "," ++ newline_indent indent (S level)) e l
                  (newline_indent indent level ++ lit "]" ++ c0 :: rest)) as (T & HT).
      rewrite <- !app_assoc.
      change (lit "[" ++ ?X) with (91 :: X). cbn [scan_once].
      change (91 =? 34) with false. change (91 =? 123) with false.
      change (91 =? 91) with true. cbv iota.
      rewrite skip_ws_newline_indent by (rewrite HT; reflexivity).
      rewrite HT, <- HT.
      change (lit "," ++ newline_indent indent (S level))
        with (44 :: newline_indent indent (S level)).
      change (lit "]" ++ c0 :: rest) with (93 :: c0 :: rest).
      apply (array_loop_strings indent level (e :: l) fuel []); [done | done | lia].
  - intros rest. destruct l as [| e l]; reflexivity.
Qed.

(** *** Objects *)

Lemma str_of_int_head (n : Z) :
  exists c (tail : str), str_of_int n = c :: tail /\ (c = 45 \/ 48 <= c <= 57).
Proof.
  unfold str_of_int. destruct (n <? 0) eqn:E.
  - eexists _, _. split; [reflexivity | by left].
  - apply Z.ltb_ge in E. destruct (decide (n = 0)) as [-> | Hne].
    + eexists _, _. split; [reflexivity | right; lia].
    + destruct (digits_of_head (S (Z.to_nat (Z.log2 n))) n
                  ltac:(pose proof (log2_fuel n); lia))
        as (c & tail & -> & Hc).
      eexists _, _. split; [reflexivity | right; lia].
Qed.

Lemma reads_back_int (indent level : nat) (n : Z) :
  int_too_long n = false ->
  reads_back indent level 0 (JInt n).
Proof.
  intros Hlim. split.
  - intros fuel c0 rest Hfuel Hc0. destruct fuel as [| fuel]; [lia |].
    by apply scan_once_int.
  - intros rest. cbn [iterencode].
    destruct (str_of_int_head n) as (c & tail & -> & Hc).
    cbn [app skip_ws]. unfold is_ws.
    destruct (c =? 32) eqn:E1; [apply Z.eqb_eq in E1; lia |].
    destruct (c =? 9) eqn:E2; [apply Z.eqb_eq in E2; lia |].
    destruct (c =? 10) eqn:E3; [apply Z.eqb_eq in E3; lia |].
    destruct (c =? 13) eqn:E4; [apply Z.eqb_eq in E4; lia |].
    reflexivity.
Qed.

Lemma reads_back_string (indent level : nat) (s : str) :
  json_safe s = true -> reads_back indent level 0 (JStr s).
Proof.
  intros Hsafe. split.
  - intros fuel c0 rest Hfuel _. destruct fuel as [| fuel]; [lia |].
    by apply scan_once_string.
  - intros rest. reflexivity.
Qed.

Lemma reads_back_mono (indent level N N' : nat) (v : json) :
  (N <= N')%nat -> reads_back indent level N v -> reads_back indent level N' v.
Proof.
  intros Hle [Hscan Hws]. split; [| done].
  intros fuel c0 rest Hfuel Hc0. apply Hscan; [lia | done].
Qed.

(** The loop of [JSONObject], entered after the quote that opens the
    first key, reads back the items of a written object. *)
Lemma object_loop_items (indent level N : nat) (items : list (str * json)) :
  forall (fuel : nat) (pairs : list (str * json)) (T rest : str),
  items <> [] ->
  Forall (fun item => json_safe (fst item) = true
                      /\ reads_back indent (S level) N (snd item)) items ->
  (length items + N < fuel)%nat ->
  join (44 :: newline_indent indent (S level)) (item_text indent level <$> items)
    ++ newline_indent indent level ++ 125 :: rest = 34 :: T ->
  object_loop fuel T pairs = Decoded (JDict (dict (pairs ++ items)), rest).
Proof.
  induction items as [| [k v] items IH];
    intros fuel pairs T rest Hne Hall Hfuel HT; [done |].
  apply Forall_cons in Hall as [[Hk [Hscan Hws]] Hall]. cbn [fst snd] in *.
  cbn [length] in Hfuel. destruct fuel as [| fuel]; [lia |].
  assert (Hstep : forall REST (c0 : Z) (R : str),
            REST = c0 :: R -> c0 = 44 \/ c0 = 10 ->
            T = concat (escape_char <$> k)
                  ++ 34 :: 58 :: 32 :: iterencode indent v (S level) ++ REST ->
            object_loop (S fuel) T pairs
            = match skip_ws REST with
              | 125 :: rest' => Decoded (JDict (dict (pairs ++ [(k, v)])), rest')
              | 44 :: s4 =>
                  match skip_ws s4 with
                  | 34 :: s5 => object_loop fuel s5 (pairs ++ [(k, v)])
                  | _ => JSONDecodeError
                  end
              | _ => JSONDecodeError
              end).
  { intros REST c0 R -> Hc0 ->. cbn [object_loop].
    rewrite scanstring_body; [| done |].
    2:{ rewrite length_app. cbn [length]. lia. }
    cbn [obind fst snd app skip_ws]. change (is_ws 32) with true. cbv iota.
    rewrite Hws, Hscan by (done || lia). cbn [obind fst snd]. reflexivity. }
  destruct items as [| item2 items].
  - cbn [fmap list_fmap join] in HT. unfold item_text in HT. cbn [fst snd] in HT.
    unfold encode_basestring_ascii, dq in HT.
    rewrite <- !app_assoc in HT. cbn [app] in HT. injection HT as HT.
    rewrite (Hstep (newline_indent indent level ++ 125 :: rest) 10
               (replicate (indent * level) 32 ++ 125 :: rest));
      [| reflexivity | by right | by rewrite <- HT].
    rewrite skip_ws_newline_indent by reflexivity. reflexivity.
  - change (item_text indent level <$> (k, v) :: item2 :: items)
      with (item_text indent level (k, v)
              :: (item_text indent level <$> item2 :: items)) in HT.
    rewrite join_cons_ne in HT by done. unfold item_text at 1 in HT.
    cbn [fst snd] in HT. unfold encode_basestring_ascii at 1, dq in HT.
    rewrite <- !app_assoc in HT. cbn [app] in HT. injection HT as HT.
    assert (Hnext : exists T' : str,
              join (44 :: newline_indent indent (S level))
                (item_text indent level <$> item2 :: items)
              ++ newline_indent indent level ++ 125 :: rest = 34 :: T').
    { destruct items; eexists; reflexivity. }
    destruct Hnext as (T' & HT').
    rewrite (Hstep (44 :: newline_indent indent (S level)
                      ++ join (44 :: newline_indent indent (S level))
                           (item_text indent level <$> item2 :: items)
                      ++ newline_indent indent level ++ 125 :: rest) 44
               (newline_indent indent (S level)
                  ++ join (44 :: newline_indent indent (S level))
                       (item_text indent level <$> item2 :: items)
                  ++ newline_indent indent level ++ 125 :: rest));
      [| reflexivity | by left | by rewrite <- HT].
    cbn [skip_ws]. change (is_ws 44) with false. cbv iota.
    rewrite skip_ws_newline_indent by (rewrite HT'; reflexivity).
    rewrite HT'.
    rewrite (IH fuel (pairs ++ [(k, v)]) T' rest); [| done | done | | done].
    + by rewrite <- app_assoc.
    + cbn [length] in *. lia.
Qed.

(** *** The report *)

Lemma join_strings_length (sep' : str) (l : list str) :
  (length l <= length (join sep' (encode_basestring_ascii <$> l)))%nat.
Proof.
  induction l as [| e l IH]; [done |].
  destruct l as [| e2 l].
  - cbn. lia.
  - change (encode_basestring_ascii <$> e :: e2 :: l)
      with (encode_basestring_ascii e :: (encode_basestring_ascii <$> e2 :: l)).
    rewrite join_cons_ne by done. rewrite !length_app.
    unfold encode_basestring_ascii at 1, dq. cbn [app length] in *. lia.
Qed.

Lemma string_array_length (indent level : nat) (l : list str) :
  (length l <= length (iterencode indent (JList (JStr <$> l)) level))%nat.
Proof.
  destruct l as [| e l]; [cbn; lia |].
  change (JStr <$> e :: l) with (JStr e :: (JStr <$> l)).
  cbn [iterencode]. change (JStr e :: (JStr <$> l)) with (JStr <$> e :: l).
  rewrite fmap_iterencode_strings, !length_app.
  pose proof (join_strings_length (lit "," ++ newline_indent indent (S level)) (e :: l)).
  lia.
Qed.

(** The text of the report is read back as the coverage data it was
    written from, when the strings of the data survive the escapes. *)
Lemma json_loads_json_dump (d : CoverageData) :
  json_safe_data d = true ->
  int_too_long (coverage_percentage d) = false ->
  int_too_long (total_endpoints d) = false ->
  json_loads (json_dump (as_dict d)) = Decoded (as_dict d).
Proof.
  intros Hsafe HlimP Hlimt. unfold json_safe_data in Hsafe.
  apply andb_prop in Hsafe as [Hsafe Hts]. apply andb_prop in Hsafe as [Hcov Hunc].
  unfold as_dict.
  set (items := [(lit "coverage_percentage", JInt (coverage_percentage d));
                 (lit "total_endpoints", JInt (total_endpoints d));
                 (lit "covered_endpoints", JList (JStr <$> covered_endpoints d));
                 (lit "uncovered_endpoints", JList (JStr <$> uncovered_endpoints d));
                 (lit "timestamp", JStr (timestamp d))]).
  set (N := S (length (covered_endpoints d) + length (uncovered_endpoints d))).
  assert (Htext : json_dump (JDict items)
                  = 123 :: newline_indent 4 1
                      ++ join (44 :: newline_indent 4 1) (item_text 4 0 <$> items)
                      ++ newline_indent 4 0 ++ 125 :: []) by reflexivity.
  assert (Hhead : exists T : str,
            join (44 :: newline_indent 4 1) (item_text 4 0 <$> items)
            ++ newline_indent 4 0 ++ 125 :: [] = 34 :: T)
    by (eexists; reflexivity).
  destruct Hhead as (T & HT).
  assert (Hlen : (length items + N < length (json_dump (JDict items)))%nat).
  { rewrite Htext. subst items. cbn [fmap list_fmap join].
    unfold item_text at 3 4. cbn [fst snd].
    pose proof (string_array_length 4 1 (covered_endpoints d)).
    pose proof (string_array_length 4 1 (uncovered_endpoints d)).
    cbn [length]. rewrite !length_app. cbn [length]. rewrite ?length_app. subst N.
    change (length (lit ": ")) with 2%nat. lia. }
  assert (Hall : Forall (fun item => json_safe (fst item) = true
                                     /\ reads_back 4 1 N (snd item)) items).
  { subst items. repeat apply Forall_cons_2; [.. | apply Forall_nil_2]; cbn [fst snd].
    - split; [reflexivity |]. eapply reads_back_mono, reads_back_int; [lia | done].
    - split; [reflexivity |]. eapply reads_back_mono, reads_back_int; [lia | done].
    - split; [reflexivity |].
      eapply reads_back_mono, reads_back_strings; [subst N; lia | done].
    - split; [reflexivity |].
      eapply reads_back_mono, reads_back_strings; [subst N; lia | done].
    - split; [reflexivity |]. eapply reads_back_mono, reads_back_string; [lia | done]. }
  unfold json_loads.
  assert (Hscan : scan_once (S (length (json_dump (JDict items))))
                    (skip_ws (json_dump (JDict items)))
                  = Decoded (JDict (dict ([] ++ items)), [])).
  { rewrite Htext at 2. cbn [skip_ws]. change (is_ws 123) with false. cbv iota.
    cbn [scan_once]. change (123 =? 34) with false. change (123 =? 123) with true.
    cbv iota. rewrite skip_ws_newline_indent by (rewrite HT; reflexivity).
    rewrite HT.
    apply (object_loop_items 4 0 N items); [done | done | done | done]. }
  rewrite Hscan. reflexivity.
Qed.

(** C9 as stated fails: an endpoint with a high surrogate directly before
    a low one comes back as a different string, the two merged into one
    character. *)
Lemma json_round_trip_fails :
  json_loads (json_dump (as_dict surrogate_data)) <> Decoded (as_dict surrogate_data).
Proof. vm_compute. discriminate. Qed.

End JsonFacts.
(** ** Paths, and the text of the JSON report *)

Section PathFacts.

(** A relative second component is appended, after a separator unless
    the first component is empty or ends in one. *)
Lemma path_join_relative (a b : str) :
  head b <> Some sep ->
  path_join a b
  = a ++ (if bool_decide (a = []) || bool_decide (last a = Some sep)
          then [] else [sep]) ++ b.
Proof.
  intros Hb. unfold path_join. rewrite bool_decide_eq_false_2 by done.
  by destruct (bool_decide (a = []) || bool_decide (last a = Some sep)).
Qed.


Lemma path_join_ne_dir (a b : str) :
  head b <> Some sep -> b <> [] -> path_join a b <> a.
Proof.
  intros Hb Hne Heq. apply (f_equal length) in Heq.
  rewrite path_join_relative in Heq by done. rewrite !length_app in Heq.
  destruct b; [done | cbn [length] in Heq; lia].
Qed.


Lemma json_path_ne_dir (dir : str) :
  path_join dir (lit "restler_coverage.json") <> dir.
Proof. by apply path_join_ne_dir. Qed.

Lemma html_path_ne_dir (dir : str) :
  path_join dir (lit "restler_coverage.html") <> dir.
Proof. by apply path_join_ne_dir. Qed.

End PathFacts.

Section AsciiFacts.

Local Ltac plain_lia := unfold plain_ascii; lia.

Lemma hex_digit_plain (d : Z) : 0 <= d < 16 -> 48 <= hex_digit d <= 102.
Proof. intros Hd. unfold hex_digit. destruct (d <? 10) eqn:E; lia. Qed.

Lemma u_escape_plain (n : Z) : Forall plain_ascii (u_escape n).
Proof.
  unfold u_escape.
  pose proof (hex_digit_plain _ (Z.mod_pos_bound (Z.shiftr n 12) 16 eq_refl)).
  pose proof (hex_digit_plain _ (Z.mod_pos_bound (Z.shiftr n 8) 16 eq_refl)).
  pose proof (hex_digit_plain _ (Z.mod_pos_bound (Z.shiftr n 4) 16 eq_refl)).
  pose proof (hex_digit_plain _ (Z.mod_pos_bound n 16 eq_refl)).
  repeat apply Forall_cons_2; [.. | apply Forall_nil_2]; plain_lia.
Qed.

Lemma replace_plain (c : Z) : Forall plain_ascii (replace c).
Proof.
  unfold replace.
  repeat (match goal with |- context [if ?b then _ else _] => destruct b end;
          [repeat apply Forall_cons_2; [.. | apply Forall_nil_2]; plain_lia |]).
  destruct (c <? 65536); [apply u_escape_plain |].
  apply Forall_app. split; apply u_escape_plain.
Qed.

Lemma escape_char_plain (c : Z) : Forall plain_ascii (escape_char c).
Proof.
  unfold escape_char. destruct (escape_ascii c) eqn:E; [apply replace_plain |].
  unfold escape_ascii in E. apply Forall_cons_2; [| apply Forall_nil_2].
  apply orb_false_elim in E as [_ E]. apply negb_false_iff, andb_prop in E as [? ?].
  plain_lia.
Qed.

Lemma encode_basestring_ascii_plain (s : str) : Forall plain_ascii (encode_basestring_ascii s).
Proof.
  unfold encode_basestring_ascii, dq.
  apply Forall_cons_2; [plain_lia |]. apply Forall_app. split.
  - apply Forall_concat, Forall_fmap, Forall_forall. intros c _. apply escape_char_plain.
  - apply Forall_cons_2; [plain_lia | apply Forall_nil_2].
Qed.

Lemma digits_of_plain (fuel : nat) : forall n : Z, 0 <= n -> Forall plain_ascii (digits_of fuel n).
Proof.
  induction fuel as [| fuel IH]; intros n Hn; cbn [digits_of]; [apply Forall_nil_2 |].
  destruct (n <? 10) eqn:E.
  - apply Z.ltb_lt in E. apply Forall_cons_2; [plain_lia | apply Forall_nil_2].
  - apply Forall_app. split.
    + apply IH. apply Z.div_pos; lia.
    + pose proof (Z.mod_pos_bound n 10 eq_refl).
      apply Forall_cons_2; [plain_lia | apply Forall_nil_2].
Qed.

Lemma str_of_int_plain (n : Z) : Forall plain_ascii (str_of_int n).
Proof.
  unfold str_of_int. destruct (n <? 0) eqn:E.
  - apply Z.ltb_lt in E. apply Forall_cons_2; [plain_lia |]. apply digits_of_plain. lia.
  - apply Z.ltb_ge in E. by apply digits_of_plain.
Qed.

Lemma newline_indent_plain (indent level : nat) : Forall plain_ascii (newline_indent indent level).
Proof.
  unfold newline_indent. apply Forall_cons_2; [plain_lia |].
  apply Forall_forall. intros c Hc. apply elem_of_replicate in Hc as [-> _]. plain_lia.
Qed.

Lemma join_plain (sep' : str) (chunks : list str) :
  Forall plain_ascii sep' -> Forall (Forall plain_ascii) chunks -> Forall plain_ascii (join sep' chunks).
Proof.
  intros Hsep Hch. induction Hch as [| c r Hc Hr IH]; [apply Forall_nil_2 |].
  destruct r as [| c' r]; [done |].
  change (join sep' (c :: c' :: r)) with (c ++ sep' ++ join sep' (c' :: r)).
  apply Forall_app. split; [done |]. apply Forall_app. split; [done |].
  by apply IH.
Qed.

Lemma lit_plain (s : string) :
  forallb (fun c => (c =? 10) || (32 <=? c) && (c <=? 126)) (lit s) = true ->
  Forall plain_ascii (lit s).
Proof.
  intros Hs. apply Forall_forall. intros c Hc.
  rewrite forallb_forall in Hs. specialize (Hs c (proj1 (list_elem_of_In _ _) Hc)).
  plain_lia.
Qed.

Lemma iterencode_strings_plain (indent level : nat) (l : list str) :
  Forall plain_ascii (iterencode indent (JList (JStr <$> l)) level).
Proof.
  destruct l as [| e l]; [by apply lit_plain |].
  change (iterencode indent (JList (JStr <$> e :: l)) level)
    with (lit "[" ++ newline_indent indent (S level)
          ++ join (lit "," ++ newline_indent indent (S level))
               ((fun value => iterencode indent value (S level)) <$> (JStr <$> e :: l))
          ++ newline_indent indent level ++ lit "]").
  rewrite fmap_iterencode_strings.
  apply Forall_app. split; [by apply lit_plain |].
  apply Forall_app. split; [apply newline_indent_plain |].
  apply Forall_app. split.
  - apply join_plain.
    + apply Forall_app. split; [by apply lit_plain | apply newline_indent_plain].
    + apply Forall_fmap, Forall_forall. intros s _. apply encode_basestring_ascii_plain.
  - apply Forall_app. split; [apply newline_indent_plain | by apply lit_plain].
Qed.

Lemma item_text_plain (indent level : nat) (key : str) (value : json) :
  Forall plain_ascii (iterencode indent value (S level)) ->
  Forall plain_ascii (item_text indent level (key, value)).
Proof.
  intros Hv. unfold item_text. cbn [fst snd].
  apply Forall_app. split; [apply encode_basestring_ascii_plain |].
  apply Forall_app. split; [by apply lit_plain | done].
Qed.

(** Every character of the dumped coverage data is plain. *)
Lemma json_dump_plain (coverage_data : CoverageData) :
  Forall plain_ascii (json_dump (as_dict coverage_data)).
Proof.
  unfold as_dict.
  set (items := [(lit "coverage_percentage", JInt (coverage_percentage coverage_data));
                 (lit "total_endpoints", JInt (total_endpoints coverage_data));
                 (lit "covered_endpoints",
                  JList (JStr <$> covered_endpoints coverage_data));
                 (lit "uncovered_endpoints",
                  JList (JStr <$> uncovered_endpoints coverage_data));
                 (lit "timestamp", JStr (timestamp coverage_data))]).
  change (json_dump (JDict items))
    with (123 :: newline_indent 4 1
            ++ join (44 :: newline_indent 4 1) (item_text 4 0 <$> items)
            ++ newline_indent 4 0 ++ 125 :: []).
  apply Forall_cons_2; [plain_lia |].
  apply Forall_app. split; [apply newline_indent_plain |].
  apply Forall_app. split.
  - apply join_plain.
    { apply Forall_cons_2; [plain_lia | apply newline_indent_plain]. }
    subst items. cbn [fmap list_fmap].
    apply Forall_cons_2; [apply item_text_plain, str_of_int_plain |].
    apply Forall_cons_2; [apply item_text_plain, str_of_int_plain |].
    apply Forall_cons_2; [apply item_text_plain, iterencode_strings_plain |].
    apply Forall_cons_2; [apply item_text_plain, iterencode_strings_plain |].
    apply Forall_cons_2; [apply item_text_plain, encode_basestring_ascii_plain |].
    apply Forall_nil_2.
  - apply Forall_app. split; [apply newline_indent_plain |].
    apply Forall_cons_2; [plain_lia | apply Forall_nil_2].
Qed.

(** X14.  The text of the JSON report is plain ASCII, whatever the
    characters of the endpoints and of the timestamp: every character of it
    is a newline or lies between the space and the tilde. *)
Theorem json_report_ascii (coverage_data : CoverageData) :
  Forall plain_ascii (json_dump (as_dict coverage_data)).
Proof. apply json_dump_plain. Qed.

End AsciiFacts.


(** ** Names of directories *)

Section NameFacts.

Lemma rstrip_sep_prefix (s : str) : rstrip_sep s `prefix_of` s.
Proof.
  induction s as [| c s IH]; [done |]. cbn [rstrip_sep].
  destruct (rstrip_sep s) as [| c' r] eqn:E.
  - destruct (c =? sep); [apply prefix_nil | apply prefix_cons, prefix_nil].
  - by apply prefix_cons.
Qed.

(** Stripping leaves a name that ends in no separator as it is. *)
Lemma rstrip_sep_id (s : str) (c : Z) :
  last s = Some c -> c <> sep -> rstrip_sep s = s.
Proof.
  induction s as [| a s IH]; [done |]. intros Hl Hc. cbn [rstrip_sep].
  destruct s as [| b s].
  - cbn in Hl. injection Hl as ->. cbn [rstrip_sep].
    destruct (c =? sep) eqn:E; [apply Z.eqb_eq in E; done | done].
  - rewrite IH by done. done.
Qed.

Lemma rstrip_sep_not_sep (s : str) : last s <> Some sep -> rstrip_sep s = s.
Proof.
  intros Hl. destruct (last s) as [c |] eqn:E.
  - apply (rstrip_sep_id s c E). congruence.
  - apply last_None in E. by subst s.
Qed.

Lemma rstrip_sep_snoc (s : str) : rstrip_sep (s ++ [sep]) = rstrip_sep s.
Proof.
  induction s as [| a s IH]; [done |].
  cbn [app rstrip_sep]. by rewrite IH.
Qed.

(** An ancestor of a path is a prefix of it that a separator follows. *)
Lemma elem_of_ancestors (a path : str) :
  a ∈ ancestors path <->
  exists i : nat, (1 <= i)%nat /\ path !! i = Some sep /\ a = take i path.
Proof.
  unfold ancestors. rewrite list_elem_of_omap. split.
  - intros (i & Hi & Hsome). apply elem_of_seq in Hi.
    destruct (bool_decide (path !! i = Some sep)) eqn:E; [| done].
    apply bool_decide_eq_true in E. injection Hsome as <-.
    exists i. split; [lia | done].
  - intros (i & Hi & Hsep & ->). exists i. split.
    + apply elem_of_seq. apply lookup_lt_Some in Hsep. lia.
    + by rewrite bool_decide_eq_true_2.
Qed.

Lemma ancestors_prefix (a path : str) : a ∈ ancestors path -> a `prefix_of` path.
Proof.
  rewrite elem_of_ancestors. intros (i & _ & _ & ->). apply prefix_take.
Qed.

Lemma ancestors_shorter (a path : str) :
  a ∈ ancestors path -> (length a < length path)%nat.
Proof.
  rewrite elem_of_ancestors. intros (i & _ & Hsep & ->).
  apply lookup_lt_Some in Hsep. rewrite length_take. lia.
Qed.

(** The ancestors of a file in a directory are the directory and its
    ancestors, under one name or another: prefixes of the directory's
    name. *)
Lemma ancestors_join (dir name a : str) :
  sep ∉ name -> a ∈ ancestors (path_join dir name) -> a `prefix_of` dir.
Proof.
  intros Hname. rewrite path_join_relative.
  2:{ destruct name as [| c n]; [done |]. cbn. intros [= ->]. apply Hname. left. }
  rewrite elem_of_ancestors. intros (i & Hi & Hsep & ->).
  set (pre := if bool_decide (dir = []) || bool_decide (last dir = Some sep)
              then [] else [sep]) in *.
  destruct (decide (i < length dir)%nat) as [Hlt | Hge].
  - rewrite take_app_le by lia. apply prefix_take.
  - assert (Hpre : (i < length (dir ++ pre))%nat).
    { destruct (decide (i < length (dir ++ pre))%nat) as [| Hge']; [done | exfalso].
      rewrite (app_assoc dir pre name) in Hsep.
      apply lookup_app_Some in Hsep as [Hl | [_ Hr]].
      - apply lookup_lt_Some in Hl. lia.
      - apply Hname. by eapply list_elem_of_lookup_2. }
    rewrite length_app in Hpre.
    assert (Hi' : i = length dir).
    { subst pre. destruct (bool_decide (dir = []) || bool_decide (last dir = Some sep));
        cbn [length] in Hpre; lia. }
    subst i. rewrite take_app_length. done.
Qed.

Lemma dir_part_no_sep (name : str) : sep ∉ name -> dir_part name = [].
Proof.
  induction name as [| c n IH]; [done |]. intros Hn. cbn [dir_part].
  rewrite IH by (intros Hin; apply Hn; by right).
  destruct (c =? sep) eqn:E; [| done].
  apply Z.eqb_eq in E. subst c. exfalso. apply Hn. left.
Qed.

Lemma dir_part_app (x name : str) :
  sep ∉ name -> dir_part (x ++ [sep] ++ name) = x ++ [sep].
Proof.
  intros Hn. induction x as [| c x IH].
  - cbn [app dir_part]. rewrite dir_part_no_sep by done.
    by rewrite Z.eqb_refl.
  - cbn [app dir_part]. cbn [app] in IH. rewrite IH. by destruct x.
Qed.

(** The directory part of a file in a directory is a name of the
    directory. *)
Lemma dir_part_join (dir name : str) :
  sep ∉ name ->
  dir_part (path_join dir name) = []  /\ dir = []
  \/ dir_part (path_join dir name) = dir /\ last dir = Some sep
  \/ rstrip_sep (dir_part (path_join dir name)) = dir.
Proof.
  intros Hname. rewrite path_join_relative.
  2:{ destruct name as [| c n]; [done |]. cbn. intros [= ->]. apply Hname. left. }
  destruct (decide (dir = [])) as [-> | Hne].
  { left. cbn. by rewrite dir_part_no_sep. }
  rewrite (bool_decide_eq_false_2 (dir = [])) by done. cbn [orb].
  destruct (bool_decide (last dir = Some sep)) eqn:E.
  - apply bool_decide_eq_true in E. right. left. split; [| done].
    destruct (last_Some dir sep) as [[d' Hd] _]; [done |]. cbn [app]. subst dir.
    by rewrite <- app_assoc, dir_part_app.
  - apply bool_decide_eq_false in E. right. right.
    rewrite dir_part_app by done. rewrite rstrip_sep_snoc.
    destruct (last dir) as [c |] eqn:El.
    + apply (rstrip_sep_id _ c); [done | congruence].
    + apply last_None in El. done.
Qed.

Lemma path_join_last (dir name : str) (c : Z) :
  head name <> Some sep -> last name = Some c -> last (path_join dir name) = Some c.
Proof.
  intros Hh Hl. rewrite path_join_relative by done.
  rewrite app_assoc. destruct name as [| a n] using rev_ind; [done |].
  rewrite last_snoc in Hl. injection Hl as ->.
  by rewrite app_assoc, last_snoc.
Qed.

Lemma path_join_longer (dir name : str) :
  head name <> Some sep -> name <> [] -> (length dir < length (path_join dir name))%nat.
Proof.
  intros Hh Hne. rewrite path_join_relative by done. rewrite !length_app.
  destruct name; [done | cbn [length]; lia].
Qed.

End NameFacts.

(** ** The encoder as it runs *)

Section RunFacts.

Lemma plain_encodable (s : str) : Forall plain_ascii s -> encodable s = true.
Proof.
  intros Hs. unfold encodable. apply forallb_forall. intros c Hc.
  rewrite Forall_forall in Hs. specialize (Hs c (proj2 (list_elem_of_In _ _) Hc)).
  unfold plain_ascii in Hs. unfold encodable_char.
  apply andb_true_intro. split; [apply andb_true_intro; split; lia |].
  apply negb_true_iff, andb_false_iff. left. lia.
Qed.

Lemma join_cons_concat (sep' c : str) (r : list str) :
  join sep' (c :: r) = c ++ concat ((fun x => sep' ++ x) <$> r).
Proof.
  revert c. induction r as [| c' r IH]; intros c.
  - cbn. by rewrite app_nil_r.
  - change (join sep' (c :: c' :: r)) with (c ++ sep' ++ join sep' (c' :: r)).
    rewrite IH. cbn [fmap list_fmap concat]. by rewrite <- app_assoc.
Qed.

(** A list of strings runs to its end. *)
Lemma elements_run_strings (run : json -> yielded) (first_buf separator closing : str)
    (first : bool) (l : list str) :
  (forall s, run (JStr s) = (encode_basestring_ascii s, None)) ->
  chain (elements_run run first_buf separator first (JStr <$> l) ++ [(closing, None)])
  = (match l with
     | [] => []
     | e :: l' =>
         (if first then first_buf else separator) ++ encode_basestring_ascii e
         ++ concat ((fun s => separator ++ encode_basestring_ascii s) <$> l')
     end ++ closing, None).
Proof.
  intros Hrun. revert first. induction l as [| e l IH]; intros first.
  - cbn. by rewrite app_nil_r.
  - cbn [fmap list_fmap elements_run app]. rewrite Hrun. cbn [is_container after_buf chain].
    fold (@fmap list _ _ _ JStr l). rewrite IH. f_equal.
    destruct l as [| e' l]; cbn [fmap list_fmap concat]; by rewrite <- ?app_assoc.
Qed.

Lemma iterencode_run_strings (indent level : nat) (l : list str) :
  iterencode_run indent (JList (JStr <$> l)) level
  = (iterencode indent (JList (JStr <$> l)) level, None).
Proof.
  destruct l as [| e l]; [done |].
  change (iterencode_run indent (JList (JStr <$> e :: l)) level)
    with (chain
            (elements_run (fun value => iterencode_run indent value (S level))
               (lit "[" ++ newline_indent indent (S level))
               (lit "," ++ newline_indent indent (S level)) true (JStr <$> e :: l)
             ++ [(newline_indent indent level ++ lit "]", None)])).
  rewrite elements_run_strings by done. f_equal.
  change (iterencode indent (JList (JStr <$> e :: l)) level)
    with (lit "[" ++ newline_indent indent (S level)
          ++ join (lit "," ++ newline_indent indent (S level))
               ((fun value => iterencode indent value (S level)) <$> (JStr <$> e :: l))
          ++ newline_indent indent level ++ lit "]").
  rewrite fmap_iterencode_strings. cbn [fmap list_fmap]. rewrite join_cons_concat.
  rewrite <- list_fmap_compose. rewrite <- !app_assoc. done.
Qed.

Lemma iterencode_run_int (indent level : nat) (n : Z) :
  iterencode_run indent (JInt n) level
  = if int_too_long n then ([], Some ValueError) else (str_of_int n, None).
Proof. reflexivity. Qed.

(** The chunks of the dump of coverage data, one after the other. *)
Lemma json_dump_run_chunks (d : CoverageData) :
  json_dump_run (as_dict d)
  = chain
      [(lit "{" ++ newline_indent 4 1, None);
       (encode_basestring_ascii (lit "coverage_percentage") ++ lit ": ", None);
       iterencode_run 4 (JInt (coverage_percentage d)) 1;
       ((lit "," ++ newline_indent 4 1)
        ++ encode_basestring_ascii (lit "total_endpoints") ++ lit ": ", None);
       iterencode_run 4 (JInt (total_endpoints d)) 1;
       ((lit "," ++ newline_indent 4 1)
        ++ encode_basestring_ascii (lit "covered_endpoints") ++ lit ": ", None);
       iterencode_run 4 (JList (JStr <$> covered_endpoints d)) 1;
       ((lit "," ++ newline_indent 4 1)
        ++ encode_basestring_ascii (lit "uncovered_endpoints") ++ lit ": ", None);
       iterencode_run 4 (JList (JStr <$> uncovered_endpoints d)) 1;
       ((lit "," ++ newline_indent 4 1)
        ++ encode_basestring_ascii (lit "timestamp") ++ lit ": ", None);
       (encode_basestring_ascii (timestamp d), None);
       (newline_indent 4 0 ++ lit "}", None)].
Proof. reflexivity. Qed.

(** The dump of coverage data whose two integers are short enough runs
    to its end, and the text is the whole text. *)
Lemma json_dump_run_whole (d : CoverageData) :
  int_too_long (coverage_percentage d) = false ->
  int_too_long (total_endpoints d) = false ->
  json_dump_run (as_dict d) = (json_dump (as_dict d), None).
Proof.
  intros HP Ht. rewrite json_dump_run_chunks.
  rewrite !iterencode_run_int, HP, Ht, !iterencode_run_strings.
  cbn [chain]. f_equal. unfold as_dict.
  change (json_dump (JDict ?items))
    with (lit "{" ++ newline_indent 4 1
            ++ join (lit "," ++ newline_indent 4 1) (item_text 4 0 <$> items)
            ++ newline_indent 4 0 ++ lit "}").
  cbn [fmap list_fmap join]. unfold item_text. cbn [fst snd].
  rewrite app_nil_r, <- !app_assoc. reflexivity.
Qed.

(** A dump that runs to its end had two integers short enough. *)
Lemma json_dump_run_end (d : CoverageData) :
  (json_dump_run (as_dict d)).2 = None ->
  int_too_long (coverage_percentage d) = false
  /\ int_too_long (total_endpoints d) = false.
Proof.
  rewrite json_dump_run_chunks, !iterencode_run_int.
  destruct (int_too_long (coverage_percentage d)); [cbn; done |].
  destruct (int_too_long (total_endpoints d)); [cbn; done |]. done.
Qed.

Lemma int_too_long_false (n : Z) : Z.abs n < 10 ^ 4300 -> int_too_long n = false.
Proof. intros Hn. unfold int_too_long. apply Z.leb_gt. exact Hn. Qed.

(** An [int] that a float holds exactly is short enough by far. *)
Lemma int_short (n : Z) : Z.abs n < 2 ^ 53 -> Z.abs n < 10 ^ 4300.
Proof.
  intros Hn. eapply Z.lt_trans; [exact Hn |]. vm_compute. reflexivity.
Qed.


End RunFacts.

(** ** Directories and files *)

Section SystemFacts.
Context `{Random} `{Os}.
Implicit Types (w : World) (path dir text : str).

Lemma some_file_false w (paths : list str) :
  (forall p : str, p ∈ paths -> w_files w !! p = None) -> some_file w paths = false.
Proof.
  intros Hp. unfold some_file. apply not_true_is_false. intros Hex.
  apply existsb_exists in Hex as (p & Hin & Hfile).
  apply bool_decide_eq_true in Hfile. rewrite (Hp p) in Hfile.
  - by destruct Hfile.
  - by apply list_elem_of_In.
Qed.

(** *** [os.makedirs] *)

Lemma makedirs_returns dir w :
  dir <> [] ->
  (forall p : str, p `prefix_of` dir -> w_files w !! p = None) ->
  refuses_makedirs dir = None ->
  makedirs dir w
  = (inr tt, set_dirs w (list_to_set (dir :: ancestors dir) ∪ w_dirs w)).
Proof.
  intros Hne Hclear Hos. unfold makedirs.
  rewrite (Hclear dir) by done. rewrite (Hclear (rstrip_sep dir)) by apply rstrip_sep_prefix.
  rewrite !bool_decide_eq_false_2 by (try intros [? ?]; done). cbn [orb].
  rewrite some_file_false by (intros p Hp; by apply Hclear, ancestors_prefix).
  by rewrite Hos.
Qed.

(** A call that returns has made the directory and touched no file. *)
Lemma makedirs_inv dir w (w' : World) :
  makedirs dir w = (inr tt, w') ->
  w' = set_dirs w (list_to_set (dir :: ancestors dir) ∪ w_dirs w).
Proof.
  unfold makedirs.
  destruct (bool_decide (is_Some (w_files w !! dir))
            || bool_decide (is_Some (w_files w !! rstrip_sep dir))); [done |].
  destruct (bool_decide (dir = [])); [done |].
  destruct (some_file w (ancestors dir)); [done |].
  destruct (refuses_makedirs dir) as [[e made] |]; [done |].
  by intros [= <-].
Qed.

(** *** [open(path, 'w')] and [f.write] *)

Lemma open_w_returns path w :
  path <> [] -> last path <> Some sep -> path ∉ w_dirs w ->
  (forall a : str, a ∈ ancestors path -> w_files w !! a = None) ->
  dir_exists w (dir_part path) = true ->
  refuses_open path = None ->
  open_w path w = (inr tt, set_files w (<[path:=[]]> (w_files w))).
Proof.
  intros Hne Hlast Hnd Hclear Hdir Hos. unfold open_w.
  rewrite (rstrip_sep_not_sep path Hlast).
  rewrite !bool_decide_eq_false_2 by done. cbn [orb].
  rewrite some_file_false by done. rewrite Hdir. cbn [negb]. by rewrite Hos.
Qed.

Lemma open_w_inv path w (w' : World) :
  open_w path w = (inr tt, w') -> w' = set_files w (<[path:=[]]> (w_files w)).
Proof.
  unfold open_w.
  destruct (bool_decide (path = [])); [done |].
  destruct (some_file w (ancestors (rstrip_sep path))); [done |].
  destruct (negb (dir_exists w (dir_part (rstrip_sep path)))); [done |].
  destruct (bool_decide (last path = Some sep) || bool_decide (path ∈ w_dirs w)); [done |].
  destruct (refuses_open path); [done |].
  by intros [= <-].
Qed.

Lemma f_write_returns path text w :
  encodable text = true -> refuses_write path text = None ->
  f_write path text w = (inr tt, set_files w (<[path:=text]> (w_files w))).
Proof. intros Henc Hos. unfold f_write. by rewrite Henc, Hos. Qed.

Lemma f_write_inv path text w (w' : World) :
  f_write path text w = (inr tt, w') ->
  w' = set_files w (<[path:=text]> (w_files w)).
Proof.
  unfold f_write. destruct (negb (encodable text)); [done |].
  destruct (refuses_write path text) as [[e remains] |]; [done |].
  by intros [= <-].
Qed.

(** The directory of a report exists once the output directory does. *)
Lemma dir_exists_join w dir name :
  sep ∉ name -> dir = [] \/ dir ∈ w_dirs w ->
  dir_exists w (dir_part (path_join dir name)) = true.
Proof.
  intros Hname Hdir. unfold dir_exists.
  destruct (dir_part_join dir name Hname) as [[-> _] | [[-> Hlast] | Hstrip]].
  - done.
  - destruct Hdir as [-> | Hin]; [done |].
    rewrite (bool_decide_eq_true_2 (dir ∈ w_dirs w)) by done.
    by rewrite !orb_true_r.
  - rewrite Hstrip. destruct Hdir as [-> | Hin].
    + rewrite (bool_decide_eq_true_2 (@nil Z = [])) by done. by rewrite !orb_true_r.
    + rewrite (bool_decide_eq_true_2 (dir ∈ w_dirs w)) by done. by rewrite !orb_true_r.
Qed.

(** *** The two report files *)

Lemma json_name_facts :
  (sep ∉ lit "restler_coverage.json")
  /\ head (lit "restler_coverage.json") <> Some sep
  /\ lit "restler_coverage.json" <> []
  /\ last (lit "restler_coverage.json") = Some 110.
Proof.
  split; [| done]. intros Hin. apply list_elem_of_In in Hin.
  vm_compute in Hin. intuition discriminate.
Qed.


(** Opening a report for writing in a directory that exists, with no
    regular file above it and no directory in its place. *)
Lemma open_report_returns w dir name (c : Z) :
  sep ∉ name -> head name <> Some sep -> name <> [] -> last name = Some c -> c <> sep ->
  dir = [] \/ dir ∈ w_dirs w ->
  (forall p : str, p `prefix_of` dir -> w_files w !! p = None) ->
  path_join dir name ∉ w_dirs w ->
  refuses_open (path_join dir name) = None ->
  open_w (path_join dir name) w
  = (inr tt, set_files w (<[path_join dir name:=[]]> (w_files w))).
Proof.
  intros Hsep Hhead Hne Hlast Hc Hdir Hclear Hnd Hos.
  apply open_w_returns; [| | done | | | done].
  - intros Heq. pose proof (path_join_longer dir name Hhead Hne) as Hl.
    rewrite Heq in Hl. cbn in Hl. lia.
  - rewrite (path_join_last dir name c) by done. congruence.
  - intros a Ha. by eapply Hclear, ancestors_join.
  - by apply dir_exists_join.
Qed.


(** *** The JSON emitter *)

(** A call of the JSON emitter that returns has made the directory,
    written the whole text of the data to the report and printed its
    line; the two integers of the data were short enough. *)
Lemma generate_mock_coverage_json_inv (d : CoverageData) dir w (w' : World) :
  generate_mock_coverage_json d dir w = (inr tt, w') ->
  int_too_long (coverage_percentage d) = false
  /\ int_too_long (total_endpoints d) = false
  /\ w' = set_stdout
            (set_files (set_dirs w (list_to_set (dir :: ancestors dir) ∪ w_dirs w))
               (<[path_join dir (lit "restler_coverage.json")
                  := json_dump (as_dict d)]> (w_files w)))
            (w_stdout w
             ++ [check_mark ++ lit " Mock JSON coverage report generated at: "
                 ++ path_join dir (lit "restler_coverage.json")]).
Proof.
  unfold generate_mock_coverage_json, dump_file, mbind, M_bind.
  destruct (makedirs dir w) as [[e | []] w1] eqn:E1; [done |].
  apply makedirs_inv in E1. subst w1.
  destruct (open_w _ _) as [[e | []] w2] eqn:E2; [done |].
  apply open_w_inv in E2. subst w2.
  destruct (f_write _ _ _) as [[e | []] w3] eqn:E3; [done |].
  apply f_write_inv in E3. subst w3.
  destruct (json_dump_run (as_dict d)).2 as [e |] eqn:Eend; [done |].
  destruct (json_dump_run_end d Eend) as [HP Ht].
  rewrite (json_dump_run_whole d HP Ht). cbn [fst].
  unfold mret, M_ret, print. intros [= <-].
  split; [done |]. split; [done |].
  cbn [w_rng w_utcnow w_cwd w_files w_dirs w_stdout set_files set_dirs set_stdout].
  by rewrite insert_insert_eq.
Qed.

Lemma generate_mock_coverage_json_returns (d : CoverageData) dir w :
  dir <> [] ->
  (forall p : str, p `prefix_of` dir -> w_files w !! p = None) ->
  path_join dir (lit "restler_coverage.json") ∉ w_dirs w ->
  int_too_long (coverage_percentage d) = false ->
  int_too_long (total_endpoints d) = false ->
  refuses_makedirs dir = None ->
  refuses_open (path_join dir (lit "restler_coverage.json")) = None ->
  refuses_write (path_join dir (lit "restler_coverage.json")) (json_dump (as_dict d))
  = None ->
  generate_mock_coverage_json d dir w
  = (inr tt,
     set_stdout
       (set_files (set_dirs w (list_to_set (dir :: ancestors dir) ∪ w_dirs w))
          (<[path_join dir (lit "restler_coverage.json")
             := json_dump (as_dict d)]> (w_files w)))
       (w_stdout w
        ++ [check_mark ++ lit " Mock JSON coverage report generated at: "
            ++ path_join dir (lit "restler_coverage.json")])).
Proof.
  intros Hne Hclear Hnd HP Ht Hmk Hop Hwr.
  destruct json_name_facts as (Hsep & Hhead & Hname & Hlast).
  unfold generate_mock_coverage_json, dump_file, mbind, M_bind.
  rewrite (makedirs_returns dir w Hne Hclear Hmk).
  rewrite (open_report_returns _ dir _ 110 Hsep Hhead Hname Hlast); [| done | | | | done].
  - rewrite (json_dump_run_whole d HP Ht). cbn [fst snd].
    rewrite f_write_returns; [| apply plain_encodable, json_dump_plain | done].
    unfold mret, M_ret, print.
    cbn [w_rng w_utcnow w_cwd w_files w_dirs w_stdout set_files set_dirs set_stdout].
    by rewrite insert_insert_eq.
  - right. cbn [w_dirs set_dirs]. apply elem_of_union_l, elem_of_list_to_set. left.
  - done.
  - cbn [w_dirs set_dirs]. intros Hin.
    apply elem_of_union in Hin as [Hin | Hin]; [| done].
    apply elem_of_list_to_set, elem_of_cons in Hin as [Heq | Hin].
    + by apply (path_join_ne_dir dir (lit "restler_coverage.json")).
    + apply ancestors_shorter in Hin.
      pose proof (path_join_longer dir _ Hhead Hname). lia.
Qed.

(** *** The HTML emitter *)

Lemma generate_mock_coverage_html_inv (d : CoverageData) dir w (w' : World) :
  generate_mock_coverage_html d dir w = (inr tt, w') ->
  html_render d = inr (html_content d)
  /\ w' = set_stdout
            (set_files w
               (<[path_join dir (lit "restler_coverage.html")
                  := html_content d]> (w_files w)))
            (w_stdout w
             ++ [check_mark ++ lit " Mock HTML coverage report generated at: "
                 ++ path_join dir (lit "restler_coverage.html")]).
Proof.
  unfold generate_mock_coverage_html, write_file, mbind, M_bind, lift.
  assert (Hr : html_render d = inl ValueError \/ html_render d = inr (html_content d)).
  { unfold html_render. destruct (_ || _); [by left | by right]. }
  destruct Hr as [-> | ->]; [done |].
  destruct (open_w _ _) as [[e | []] w2] eqn:E2; [done |].
  apply open_w_inv in E2. subst w2.
  destruct (f_write _ _ _) as [[e | []] w3] eqn:E3; [done |].
  apply f_write_inv in E3. subst w3.
  unfold print. intros [= <-]. split; [done |].
  cbn [w_rng w_utcnow w_cwd w_files w_dirs w_stdout set_files set_dirs set_stdout].
  by rewrite insert_insert_eq.
Qed.


End SystemFacts.
(** ** The JSON report, read back *)

Section JsonEmitterFacts.
Context `{Random} `{Os}.

(** C9, as the code has it.  For every coverage data whose strings
    survive the escapes (every code point is one, and no high surrogate
    stands directly before a low one): whenever the emitter returns,
    whatever the output directory and the surroundings,
    [restler_coverage.json] holds the text of the data, whole, and
    [json.load] reads that text back as the coverage data: the same five
    keys with the same values. *)
Theorem generate_mock_coverage_json_round_trip
    (coverage_data : CoverageData) (output_dir : str) (w w' : World) :
  json_safe_data coverage_data = true ->
  generate_mock_coverage_json coverage_data output_dir w = (inr tt, w') ->
  w_files w' !! path_join output_dir (lit "restler_coverage.json")
  = Some (json_dump (as_dict coverage_data))
  /\ json_loads (json_dump (as_dict coverage_data)) = Decoded (as_dict coverage_data).
Proof.
  intros Hsafe Hrun.
  apply generate_mock_coverage_json_inv in Hrun as (HP & Ht & ->).
  split.
  - cbn [w_files set_stdout set_files]. apply lookup_insert_eq.
  - by apply json_loads_json_dump.
Qed.

End JsonEmitterFacts.
(** ** The loader: every way it ends *)

Section LoaderExtras.
Context `{Random} `{Yaml}.
Implicit Types (w : World) (path text : str).



(** X3.  A document that is a mapping with no [paths] key has no
    endpoints: the loader returns the empty list and prints nothing. *)
Theorem parse_openapi_yaml_without_paths path text (items : list (str * yaml)) w :
  w_files w !! path = Some text -> safe_load text = Document (YDict items) ->
  dict_lookup items (lit "paths") = None ->
  parse_openapi_yaml path w = (inr [], w).
Proof. apply parse_openapi_yaml_no_paths. Qed.

(** X4.  A document whose [paths] value is a mapping yields the keys of
    that mapping, one endpoint for each, in the order of the document and
    whatever stands under a key; nothing is printed. *)
Theorem parse_openapi_yaml_declaration_order path text
  (items paths : list (str * yaml)) w :
  w_files w !! path = Some text -> safe_load text = Document (YDict items) ->
  dict_lookup items (lit "paths") = Some (YDict paths) ->
  parse_openapi_yaml path w = (inr (fst <$> paths), w)
  /\ length (fst <$> paths) = length paths.
Proof.
  intros Hf Hl Hk. split; [by eapply parse_openapi_yaml_paths |].
  by rewrite length_fmap.
Qed.

(** The documents on which one of the two method calls fails: those
    that are no mapping, and the mappings whose [paths] value is none. *)
Lemma parse_openapi_yaml_not_a_mapping path text (doc : yaml) w :
  w_files w !! path = Some text -> safe_load text = Document doc ->
  ((forall items, doc <> YDict items)
   \/ exists items v,
        doc = YDict items
        /\ dict_lookup items (lit "paths") = Some v
        /\ forall paths, v <> YDict paths) ->
  parse_openapi_yaml path w = (inl AttributeError, w).
Proof.
  intros Hf Hl Hdoc. rewrite (parse_openapi_yaml_loaded _ _ _ _ Hf Hl).
  destruct Hdoc as [Hnd | (items & v & -> & Hk & Hv)].
  - destruct doc; try done. by destruct (Hnd items).
  - unfold get. rewrite Hk. cbn [rbind from_option id].
    destruct v; try done. by destruct (Hv items0).
Qed.

(** X5.  On a file that loads, the loader raises [AttributeError]
    exactly when the document is not a mapping or its [paths] value is
    not one ([paths:] left empty, a list, a scalar); nothing is printed. *)
Theorem parse_openapi_yaml_attribute_error path text (doc : yaml) w :
  w_files w !! path = Some text -> safe_load text = Document doc ->
  parse_openapi_yaml path w = (inl AttributeError, w)
  <-> ((forall items, doc <> YDict items)
       \/ exists items v,
            doc = YDict items
            /\ dict_lookup items (lit "paths") = Some v
            /\ forall paths, v <> YDict paths).
Proof.
  intros Hf Hl. split; [| by apply (parse_openapi_yaml_not_a_mapping _ text)].
  rewrite (parse_openapi_yaml_loaded _ _ _ _ Hf Hl).
  intros Hr. destruct doc as [| b | n | x | s | l | items];
    try (left; intros items' [=]; fail).
  right. unfold get in Hr. cbn [rbind] in Hr.
  destruct (dict_lookup items (lit "paths")) as [v |] eqn:Hk; [| done].
  exists items, v. split; [done |]. split; [done |].
  intros paths ->. done.
Qed.



End LoaderExtras.
(** ** The partition: the count, and what else the call does *)

Section PartitionExtras.
Context `{Random}.
Implicit Types (E : list str) (P count : Z) (w : World).

(** The length of a slice [[:count]] for a count within the list. *)
Lemma slice_to_len (x : list str) count :
  0 <= count <= len x -> len (slice_to x count) = count.
Proof.
  intros Hc. unfold len in *. rewrite slice_to_length, slice_bound_nonneg by lia. lia.
Qed.

(** X7.  For a percentage from 0 to 100 and fewer than [2 ** 44]
    endpoints, the number of covered endpoints is [floor(len * P / 100)]
    or one less, and it is the floor whenever [len * P] is not a multiple
    of 100. *)
Theorem calculate_coverage_count E P w :
  0 <= P <= 100 -> len E < 2 ^ 44 ->
  exists (r : CoverageData) (w' : World),
    calculate_coverage E P w = (inr r, w')
    /\ len E * P / 100 - 1 <= len (covered_endpoints r) <= len E * P / 100
    /\ ((len E * P) mod 100 <> 0 -> len (covered_endpoints r) = len E * P / 100).
Proof.
  intros HP Hlen.
  assert (Hn : 0 <= len E < 2 ^ 44) by (unfold len in *; lia).
  destruct (covered_count_percent P (len E) HP Hn) as (count & Hc & Hr & Hb & Hex).
  destruct (calculate_coverage_returns E P w count Hc)
    as (shuffled & s & _ & Hperm & Hrun).
  eexists _, _. split; [exact Hrun |]. cbn [covered_endpoints].
  assert (Hl : len shuffled = len E) by (unfold len; by rewrite (Permutation_length Hperm)).
  rewrite slice_to_len by lia. done.
Qed.

(** X8.  Raising the percentage only adds to the covered endpoints: for
    two percentages from 0 to 100, the covered list of the smaller is a
    prefix of the covered list of the larger, and the uncovered list of the
    larger is a suffix of the uncovered list of the smaller. *)
Theorem calculate_coverage_monotone E P1 P2 w1 w2 :
  0 <= P1 <= P2 -> P2 <= 100 -> len E < 2 ^ 44 ->
  exists (r1 r2 : CoverageData) (w1' w2' : World),
    calculate_coverage E P1 w1 = (inr r1, w1')
    /\ calculate_coverage E P2 w2 = (inr r2, w2')
    /\ covered_endpoints r1 `prefix_of` covered_endpoints r2
    /\ uncovered_endpoints r2 `suffix_of` uncovered_endpoints r1.
Proof.
  intros HP1 HP2 Hlen.
  assert (Hn : 0 <= len E < 2 ^ 44) by (unfold len in *; lia).
  destruct (covered_count_percent P1 (len E) ltac:(lia) Hn) as (c1 & Hc1 & Hr1 & _).
  destruct (covered_count_percent P2 (len E) ltac:(lia) Hn) as (c2 & Hc2 & Hr2 & _).
  pose proof (covered_count_monotone P1 P2 (len E) c1 c2 HP1 HP2 Hn Hc1 Hc2) as Hle.
  destruct (calculate_coverage_returns E P1 w1 c1 Hc1)
    as (sh1 & s1 & Hs1 & _ & Hrun1).
  destruct (calculate_coverage_returns E P2 w2 c2 Hc2)
    as (sh2 & s2 & Hs2 & _ & Hrun2).
  rewrite Hs1 in Hs2. simplify_eq.
  eexists _, _, _, _. split; [exact Hrun1 |]. split; [exact Hrun2 |].
  cbn [covered_endpoints uncovered_endpoints].
  rewrite !slice_to_take, !slice_from_drop by lia.
  assert (Hnat : (Z.to_nat c1 <= Z.to_nat c2)%nat) by lia.
  split.
  - exists (take (Z.to_nat c2 - Z.to_nat c1) (drop (Z.to_nat c1) sh2)).
    rewrite take_take_drop. f_equal. lia.
  - exists (take (Z.to_nat c2 - Z.to_nat c1) (drop (Z.to_nat c1) sh2)).
    rewrite <- (take_drop (Z.to_nat c2 - Z.to_nat c1) (drop (Z.to_nat c1) sh2)) at 1.
    f_equal. rewrite drop_drop. f_equal. lia.
Qed.

(** X9.  A count outside the list is cut to it by the two slices: a
    count of at least the length covers every endpoint, a count of at most
    minus the length covers none, and a negative count in between leaves
    uncovered the last endpoints of the shuffled list, as many as its
    magnitude, and covers the ones before them. *)
Theorem calculate_coverage_out_of_range E P w count :
  covered_count P (len E) = inr count ->
  exists (shuffled : list str) (s : rng_state) (r : CoverageData) (w' : World),
    shuffle E (seed 42) = (inr shuffled, s)
    /\ calculate_coverage E P w = (inr r, w')
    /\ (len E <= count ->
        covered_endpoints r = shuffled /\ uncovered_endpoints r = [])
    /\ (count <= - len E ->
        covered_endpoints r = [] /\ uncovered_endpoints r = shuffled)
    /\ (- len E <= count < 0 ->
        covered_endpoints r ++ uncovered_endpoints r = shuffled
        /\ len (uncovered_endpoints r) = - count
        /\ len (covered_endpoints r) = len E + count).
Proof.
  intros Hc.
  destruct (calculate_coverage_returns E P w count Hc)
    as (shuffled & s & Hs & Hperm & Hrun).
  eexists shuffled, s, _, _. split; [done |]. split; [exact Hrun |].
  cbn [covered_endpoints uncovered_endpoints].
  pose proof (Permutation_length Hperm) as Hl.
  split; [| split].
  - intros Hbig. unfold slice_to, slice_from, slice_bound, len in *.
    destruct (count <? 0) eqn:E0; [apply Z.ltb_lt in E0; lia |].
    replace (Z.to_nat (Z.min count (Z.of_nat (length shuffled))))
      with (length shuffled) by lia.
    by rewrite firstn_all, drop_all.
  - intros Hsmall. unfold slice_to, slice_from, slice_bound, len in *.
    destruct (count <? 0) eqn:E0.
    + replace (Z.to_nat (Z.max 0 (count + Z.of_nat (length shuffled)))) with 0%nat by lia.
      done.
    + apply Z.ltb_ge in E0.
      replace (Z.to_nat (Z.min count (Z.of_nat (length shuffled)))) with 0%nat by lia.
      done.
  - intros Hneg. split; [apply slice_to_from |].
    unfold slice_to, slice_from, slice_bound, len in *.
    destruct (count <? 0) eqn:E0; [| apply Z.ltb_ge in E0; lia].
    rewrite length_drop, length_take. lia.
Qed.

(** X10.  What the call returns beside the two lists, and what it does
    to its surroundings: the percentage is recorded as given, the total is
    the length of the list, the timestamp is the clock's text followed by
    [Z]; no file or directory changes and nothing is printed; the
    module-level generator is left in the state that seed 42 and the
    shuffle lead to, whatever its state was.  When line 47 raises, the
    surroundings are untouched, the generator included. *)
Theorem calculate_coverage_surroundings E P w :
  w_files (calculate_coverage E P w).2 = w_files w
  /\ w_dirs (calculate_coverage E P w).2 = w_dirs w
  /\ w_stdout (calculate_coverage E P w).2 = w_stdout w
  /\ match (calculate_coverage E P w).1 with
     | inr r =>
         coverage_percentage r = P
         /\ total_endpoints r = len E
         /\ timestamp r = w_utcnow w ++ lit "Z"
         /\ w_rng (calculate_coverage E P w).2 = (shuffle E (seed 42)).2
     | inl e =>
         covered_count P (len E) = inl e /\ (calculate_coverage E P w).2 = w
     end.
Proof.
  destruct (covered_count P (len E)) as [e | count] eqn:Hc.
  - rewrite (calculate_coverage_raises E P w e Hc). done.
  - destruct (calculate_coverage_returns E P w count Hc)
      as (shuffled & s & Hs & _ & ->).
    cbn [fst snd]. rewrite Hs. done.
Qed.

(** X11.  A percentage of more than 1031 bits makes line 47 raise
    [OverflowError], in the division, before the generator is seeded. *)
Theorem calculate_coverage_overflow E P w :
  2 ^ 1031 <= Z.abs P ->
  calculate_coverage E P w = (inl OverflowError, w).
Proof.
  intros HP. apply calculate_coverage_raises.
  unfold covered_count. by rewrite PyFloatFacts.truediv_int_100_overflow.
Qed.

End PartitionExtras.
(** ** The emitters: what they leave behind *)

Section EmitterExtras.
Context `{Random} `{Os}.
Implicit Types (w : World) (output_dir : str) (coverage_data : CoverageData).



(** *** The text of the page *)







(** X13.  A regular file where the output directory goes stops the JSON
    emitter with [FileExistsError] before it writes or prints anything. *)
Theorem generate_mock_coverage_json_file_in_the_way coverage_data output_dir w :
  is_Some (w_files w !! output_dir) ->
  generate_mock_coverage_json coverage_data output_dir w = (inl FileExistsError, w).
Proof.
  intros Hf. unfold generate_mock_coverage_json, mbind, M_bind, makedirs.
  by rewrite bool_decide_eq_true_2.
Qed.




End EmitterExtras.
(** ** The driver, end to end *)

Section DriverExtras.
Context `{Random} `{Yaml} `{Os}.
Implicit Types (w : World) (text : str).




(** X20.  The driver catches nothing: when [api_spec.yaml] loads as a
    document that is no mapping, or whose [paths] value is none, the run
    ends with the loader's [AttributeError], having printed and written
    nothing. *)
Theorem main_attribute_error w text (doc : yaml) :
  w_files w !! path_join (w_cwd w) (lit "api_spec.yaml") = Some text ->
  safe_load text = Document doc ->
  ((forall items, doc <> YDict items)
   \/ exists items v,
        doc = YDict items
        /\ dict_lookup items (lit "paths") = Some v
        /\ forall paths, v <> YDict paths) ->
  main w = (inl AttributeError, w).
Proof.
  intros Hf Hl Hdoc. unfold main, mbind, M_bind, getcwd.
  by rewrite (parse_openapi_yaml_not_a_mapping _ _ _ _ Hf Hl Hdoc).
Qed.

End DriverExtras.

(** ** Concrete runs *)

(** The surroundings of the examples hold at most [/repo/api_spec.yaml]:
    no regular file stands at a prefix of a name that the name of the
    document does not begin. *)
Lemma world_with_clear (spec : option str) (dir : str) :
  ~ lit "/repo/api_spec.yaml" `prefix_of` dir ->
  forall p : str, p `prefix_of` dir -> w_files (world_with spec) !! p = None.
Proof.
  intros Hdir p Hp. destruct spec as [text |]; cbn [world_with w_files].
  - apply lookup_singleton_ne. by intros <-.
  - apply lookup_empty.
Qed.

Lemma reports_dir_clear (spec : option str) :
  forall p : str, p `prefix_of` lit "/repo/coverage_reports" ->
                  w_files (world_with spec) !! p = None.
Proof. apply world_with_clear. intros [k Hk]. vm_compute in Hk. discriminate Hk. Qed.


(** The only directory of the surroundings is [/repo]. *)
Lemma world_with_dirs (spec : option str) (p : str) :
  p <> lit "/repo" -> p ∉ w_dirs (world_with spec).
Proof.
  intros Hp Hin. unfold world_with in Hin. cbn [w_dirs] in Hin.
  apply elem_of_singleton in Hin. done.
Qed.


(** The scenario of the specification: four endpoints at 71 percent, two
    of them covered. *)
Lemma calculate_coverage_slices_witness :
  covered_count 71 (len four_endpoints) = inr 2
  /\ exists (shuffled : list str) (s : @rng_state lcg_random) r w',
       shuffle four_endpoints (seed 42) = (inr shuffled, s)
       /\ calculate_coverage four_endpoints 71 (world_with None) = (inr r, w')
       /\ covered_endpoints r = slice_to shuffled 2
       /\ uncovered_endpoints r = slice_from shuffled 2
       /\ (0 <= 2 ->
           covered_endpoints r = take (Z.to_nat 2) shuffled
           /\ uncovered_endpoints r = drop (Z.to_nat 2) shuffled).
Proof.
  split; [reflexivity |].
  apply (@calculate_coverage_slices lcg_random four_endpoints 71 (world_with None) 2).
  reflexivity.
Defined.

Lemma calculate_coverage_partition_witness :
  covered_count 71 (len four_endpoints) = inr 2
  /\ exists r w',
       @calculate_coverage lcg_random four_endpoints 71 (world_with None) = (inr r, w')
       /\ covered_endpoints r ++ uncovered_endpoints r ≡ₚ four_endpoints
       /\ (length (covered_endpoints r) + length (uncovered_endpoints r)
           = length four_endpoints)%nat
       /\ (forall ep, ep ∈ four_endpoints
                      <-> ep ∈ covered_endpoints r \/ ep ∈ uncovered_endpoints r)
       /\ (NoDup four_endpoints ->
           forall ep, ep ∈ covered_endpoints r -> ep ∉ uncovered_endpoints r).
Proof.
  split; [reflexivity |].
  apply (@calculate_coverage_partition lcg_random four_endpoints 71 (world_with None) 2).
  reflexivity.
Defined.

Lemma calculate_coverage_empty_witness :
  Z.abs 71 < 2 ^ 900
  /\ @calculate_coverage lcg_random [] 71 (world_with None) =
       (inr {| coverage_percentage := 71;
               total_endpoints := 0;
               covered_endpoints := [];
               uncovered_endpoints := [];
               timestamp := w_utcnow (world_with None) ++ lit "Z" |},
        set_rng (world_with None) (seed 42)).
Proof.
  assert (H : Z.abs 71 < 2 ^ 900) by (vm_compute; reflexivity).
  split; [exact H |].
  apply (@calculate_coverage_empty lcg_random 71 (world_with None) H).
Defined.

Lemma calculate_coverage_extremes_witness :
  len four_endpoints < 2 ^ 53
  /\ exists (shuffled : list str) (s : @rng_state lcg_random),
       shuffle four_endpoints (seed 42) = (inr shuffled, s)
       /\ (exists r w',
             calculate_coverage four_endpoints 0 (world_with None) = (inr r, w')
             /\ covered_endpoints r = []
             /\ uncovered_endpoints r = shuffled)
       /\ (exists r w',
             calculate_coverage four_endpoints 100 (world_with None) = (inr r, w')
             /\ covered_endpoints r = shuffled
             /\ uncovered_endpoints r = []).
Proof.
  assert (H : len four_endpoints < 2 ^ 53) by (vm_compute; reflexivity).
  split; [exact H |].
  apply (@calculate_coverage_extremes lcg_random four_endpoints (world_with None) H).
Defined.

(** An empty [api_spec.yaml]. *)
Lemma parse_openapi_yaml_none_witness :
  w_files (world_with (Some [])) !! lit "/repo/api_spec.yaml" = Some []
  /\ @safe_load table_yaml [] = Document YNone
  /\ @parse_openapi_yaml lcg_random table_yaml (lit "/repo/api_spec.yaml")
       (world_with (Some []))
     = (inl AttributeError, world_with (Some [])).
Proof.
  assert (H1 : w_files (world_with (Some [])) !! lit "/repo/api_spec.yaml" = Some [])
    by reflexivity.
  assert (H2 : @safe_load table_yaml [] = Document YNone) by reflexivity.
  split; [exact H1 |]. split; [exact H2 |].
  apply (@parse_openapi_yaml_none lcg_random table_yaml _ _ _ H1 H2).
Defined.

(** No [api_spec.yaml] at all. *)
Lemma main_no_endpoints_witness :
  exists w2 : @World lcg_random,
    @main lcg_random table_yaml granting_os (world_with None) = (inr tt, w2)
    /\ w_stdout w2 =
         [lit "YAML file not found at path: /repo/api_spec.yaml"]
         ++ [[8218; 249; 229] ++ lit " No endpoints found or failed to parse YAML. Exiting."]
    /\ w_files w2 = w_files (world_with None)
    /\ w_dirs w2 = w_dirs (world_with None).
Proof.
  apply (@main_no_endpoints lcg_random table_yaml granting_os (world_with None)
           (set_stdout (world_with None)
              [lit "YAML file not found at path: /repo/api_spec.yaml"])).
  reflexivity.
Defined.

Lemma html_content_verbatim_witness :
  Forall (Forall (fun c => html_special c = false))
    (covered_endpoints four_data ++ uncovered_endpoints four_data)
  /\ html_content four_data = html_content_escaped four_data.
Proof.
  assert (H : Forall (Forall (fun c => html_special c = false))
                (covered_endpoints four_data ++ uncovered_endpoints four_data)).
  { repeat constructor. }
  split; [exact H |].
  exact (proj2 (proj2 (html_content_verbatim four_data)) H).
Defined.

(** A run of the JSON emitter that returns, into [/repo/coverage_reports]. *)
Lemma generate_mock_coverage_json_round_trip_witness :
  json_safe_data four_data = true
  /\ exists w' : @World lcg_random,
       @generate_mock_coverage_json lcg_random granting_os four_data
         (lit "/repo/coverage_reports") (world_with None) = (inr tt, w')
       /\ w_files w' !! path_join (lit "/repo/coverage_reports")
                          (lit "restler_coverage.json")
          = Some (json_dump (as_dict four_data))
       /\ json_loads (json_dump (as_dict four_data)) = Decoded (as_dict four_data).
Proof.
  assert (H1 : json_safe_data four_data = true) by reflexivity.
  split; [exact H1 |].
  eexists. split.
  - apply (@generate_mock_coverage_json_returns lcg_random granting_os four_data
             (lit "/repo/coverage_reports") (world_with None)).
    + discriminate.
    + apply reports_dir_clear.
    + apply world_with_dirs. vm_compute. discriminate.
    + apply int_too_long_false, int_short. vm_compute. reflexivity.
    + apply int_too_long_false, int_short. vm_compute. reflexivity.
    + reflexivity.
    + reflexivity.
    + reflexivity.
  - apply (@generate_mock_coverage_json_round_trip lcg_random granting_os four_data
             (lit "/repo/coverage_reports") (world_with None) _ H1).
    apply (@generate_mock_coverage_json_returns lcg_random granting_os four_data
             (lit "/repo/coverage_reports") (world_with None)).
    + discriminate.
    + apply reports_dir_clear.
    + apply world_with_dirs. vm_compute. discriminate.
    + apply int_too_long_false, int_short. vm_compute. reflexivity.
    + apply int_too_long_false, int_short. vm_compute. reflexivity.
    + reflexivity.
    + reflexivity.
    + reflexivity.
Defined.

(** The whole pipeline on a document that declares the four endpoints:
    both reports are written, the JSON report is read back as the data,
    and three lines are printed. *)
Example main_four_paths :
  exists w2 : @World lcg_random,
    @main lcg_random table_yaml granting_os (world_with (Some four_paths_text))
    = (inr tt, w2)
    /\ w_files w2 !! lit "/repo/coverage_reports/restler_coverage.json"
       = Some (json_dump (as_dict four_data))
    /\ w_files w2 !! lit "/repo/coverage_reports/restler_coverage.html"
       = Some (html_content four_data)
    /\ length (w_stdout w2) = 3%nat.
Proof.
  exists (snd (@main lcg_random table_yaml granting_os
                 (world_with (Some four_paths_text)))).
  split.
  - rewrite (surjective_pairing (main _)) at 1. f_equal.
  - repeat split; vm_compute; reflexivity.
Qed.

(** ** Concrete runs of the further properties *)



(** A document with an [info] key and no [paths] key. *)
Lemma parse_openapi_yaml_without_paths_witness :
  w_files (world_with (Some (lit "info: {}"))) !! lit "/repo/api_spec.yaml"
  = Some (lit "info: {}")
  /\ @safe_load table_yaml (lit "info: {}") = Document (YDict [(lit "info", YDict [])])
  /\ dict_lookup [(lit "info", YDict [])] (lit "paths") = None
  /\ @parse_openapi_yaml lcg_random table_yaml (lit "/repo/api_spec.yaml")
       (world_with (Some (lit "info: {}")))
     = (inr [], world_with (Some (lit "info: {}"))).
Proof.
  assert (H1 : w_files (world_with (Some (lit "info: {}"))) !! lit "/repo/api_spec.yaml"
               = Some (lit "info: {}")) by reflexivity.
  assert (H2 : @safe_load table_yaml (lit "info: {}")
               = Document (YDict [(lit "info", YDict [])])) by reflexivity.
  assert (H3 : dict_lookup [(lit "info", YDict [])] (lit "paths") = None)
    by reflexivity.
  split; [exact H1 |]. split; [exact H2 |]. split; [exact H3 |].
  apply (@parse_openapi_yaml_without_paths lcg_random table_yaml _ _ _ _ H1 H2 H3).
Defined.

(** The document that declares the four endpoints. *)
Lemma parse_openapi_yaml_declaration_order_witness :
  w_files (world_with (Some four_paths_text)) !! lit "/repo/api_spec.yaml"
  = Some four_paths_text
  /\ @parse_openapi_yaml lcg_random table_yaml (lit "/repo/api_spec.yaml")
       (world_with (Some four_paths_text))
     = (inr four_endpoints, world_with (Some four_paths_text)).
Proof.
  assert (H1 : w_files (world_with (Some four_paths_text)) !! lit "/repo/api_spec.yaml"
               = Some four_paths_text) by reflexivity.
  split; [exact H1 |].
  exact (proj1 (@parse_openapi_yaml_declaration_order lcg_random table_yaml
                  (lit "/repo/api_spec.yaml") four_paths_text
                  [(lit "paths",
                    YDict [(lit "/a", YDict []); (lit "/b", YDict []);
                           (lit "/c", YDict []); (lit "/d", YDict [])])]
                  [(lit "/a", YDict []); (lit "/b", YDict []);
                   (lit "/c", YDict []); (lit "/d", YDict [])]
                  (world_with (Some four_paths_text)) H1 eq_refl eq_refl)).
Defined.

(** An empty [api_spec.yaml]: the document is [None], no mapping. *)
Lemma parse_openapi_yaml_attribute_error_witness :
  w_files (world_with (Some [])) !! lit "/repo/api_spec.yaml" = Some []
  /\ @safe_load table_yaml [] = Document YNone
  /\ (forall items, YNone <> YDict items)
  /\ @parse_openapi_yaml lcg_random table_yaml (lit "/repo/api_spec.yaml")
       (world_with (Some []))
     = (inl AttributeError, world_with (Some [])).
Proof.
  assert (H1 : w_files (world_with (Some [])) !! lit "/repo/api_spec.yaml" = Some [])
    by reflexivity.
  assert (H2 : @safe_load table_yaml [] = Document YNone) by reflexivity.
  assert (H3 : forall items, YNone <> YDict items) by (intros items; discriminate).
  split; [exact H1 |]. split; [exact H2 |]. split; [exact H3 |].
  exact (proj2 (@parse_openapi_yaml_attribute_error lcg_random table_yaml _ _ _
                  (world_with (Some [])) H1 H2)
               (or_introl H3)).
Defined.

(** Four endpoints at 71 percent: [4 * 71 = 284] is no multiple of 100,
    and two endpoints are covered. *)
Lemma calculate_coverage_count_witness :
  0 <= 71 <= 100
  /\ len four_endpoints < 2 ^ 44
  /\ exists (r : CoverageData) (w' : @World lcg_random),
       calculate_coverage four_endpoints 71 (world_with None) = (inr r, w')
       /\ len four_endpoints * 71 / 100 - 1 <= len (covered_endpoints r)
          <= len four_endpoints * 71 / 100
       /\ ((len four_endpoints * 71) mod 100 <> 0 ->
           len (covered_endpoints r) = len four_endpoints * 71 / 100).
Proof.
  assert (H1 : 0 <= 71 <= 100) by lia.
  assert (H2 : len four_endpoints < 2 ^ 44) by (vm_compute; reflexivity).
  split; [exact H1 |]. split; [exact H2 |].
  apply (@calculate_coverage_count lcg_random four_endpoints 71 (world_with None) H1 H2).
Defined.

(** Four endpoints at 50 and at 71 percent. *)
Lemma calculate_coverage_monotone_witness :
  0 <= 50 <= 71
  /\ 71 <= 100
  /\ len four_endpoints < 2 ^ 44
  /\ exists (r1 r2 : CoverageData) (w1' w2' : @World lcg_random),
       calculate_coverage four_endpoints 50 (world_with None) = (inr r1, w1')
       /\ calculate_coverage four_endpoints 71 (world_with None) = (inr r2, w2')
       /\ covered_endpoints r1 `prefix_of` covered_endpoints r2
       /\ uncovered_endpoints r2 `suffix_of` uncovered_endpoints r1.
Proof.
  assert (H1 : 0 <= 50 <= 71) by lia.
  assert (H2 : 71 <= 100) by lia.
  assert (H3 : len four_endpoints < 2 ^ 44) by (vm_compute; reflexivity).
  split; [exact H1 |]. split; [exact H2 |]. split; [exact H3 |].
  apply (@calculate_coverage_monotone lcg_random four_endpoints 50 71
           (world_with None) (world_with None) H1 H2 H3).
Defined.

(** Four endpoints at minus 50 percent: the count is minus 2, and the
    last two endpoints of the shuffled list are left uncovered. *)
Lemma calculate_coverage_out_of_range_witness :
  covered_count (-50) (len four_endpoints) = inr (-2)
  /\ exists (shuffled : list str) (s : @rng_state lcg_random) (r : CoverageData) w',
       shuffle four_endpoints (seed 42) = (inr shuffled, s)
       /\ calculate_coverage four_endpoints (-50) (world_with None) = (inr r, w')
       /\ covered_endpoints r ++ uncovered_endpoints r = shuffled
       /\ len (uncovered_endpoints r) = 2
       /\ len (covered_endpoints r) = 2.
Proof.
  assert (H1 : covered_count (-50) (len four_endpoints) = inr (-2)) by reflexivity.
  split; [exact H1 |].
  destruct (@calculate_coverage_out_of_range lcg_random four_endpoints (-50)
              (world_with None) (-2) H1)
    as (shuffled & s & r & w' & Hs & Hrun & _ & _ & Hneg).
  exists shuffled, s, r, w'. split; [exact Hs |]. split; [exact Hrun |].
  apply Hneg. vm_compute. split; [discriminate | reflexivity].
Defined.

Lemma calculate_coverage_overflow_witness :
  2 ^ 1031 <= Z.abs (2 ^ 1031)
  /\ @calculate_coverage lcg_random four_endpoints (2 ^ 1031) (world_with None)
     = (inl OverflowError, world_with None).
Proof.
  assert (H1 : 2 ^ 1031 <= Z.abs (2 ^ 1031)) by (vm_compute; discriminate).
  split; [exact H1 |].
  apply (@calculate_coverage_overflow lcg_random four_endpoints (2 ^ 1031)
           (world_with None) H1).
Defined.


(** The output directory named like the document, a regular file. *)
Lemma generate_mock_coverage_json_file_in_the_way_witness :
  is_Some (w_files (world_with (Some [])) !! lit "/repo/api_spec.yaml")
  /\ @generate_mock_coverage_json lcg_random granting_os four_data
       (lit "/repo/api_spec.yaml") (world_with (Some []))
     = (inl FileExistsError, world_with (Some [])).
Proof.
  assert (H1 : is_Some (w_files (world_with (Some [])) !! lit "/repo/api_spec.yaml")).
  { exists []. reflexivity. }
  split; [exact H1 |].
  apply (@generate_mock_coverage_json_file_in_the_way lcg_random granting_os four_data
           (lit "/repo/api_spec.yaml") (world_with (Some [])) H1).
Defined.






(** An empty [api_spec.yaml] ends the run with a traceback. *)
Lemma main_attribute_error_witness :
  w_files (world_with (Some [])) !! lit "/repo/api_spec.yaml" = Some []
  /\ @safe_load table_yaml [] = Document YNone
  /\ @main lcg_random table_yaml granting_os (world_with (Some []))
     = (inl AttributeError, world_with (Some [])).
Proof.
  assert (H1 : w_files (world_with (Some [])) !! lit "/repo/api_spec.yaml" = Some [])
    by reflexivity.
  assert (H2 : @safe_load table_yaml [] = Document YNone) by reflexivity.
  split; [exact H1 |]. split; [exact H2 |].
  apply (@main_attribute_error lcg_random table_yaml granting_os (world_with (Some [])) [] YNone
           H1 H2).
  left. intros items. discriminate.
Defined.
